(** * angelscript-ui-debugger: a shallow embedding of the debugger core

    The development follows [as_debugger.h] (value model, cache, breakpoints,
    controller) and [as_debugger_imgui.cpp] (the consumers of the cache).
    Pointers are machine integers ([Z], [nullptr] is [0]); the address-keyed
    [std::unordered_map]s are [gmap]s, the breakpoint [std::unordered_set] is
    a [gset]; an iterator into [var_states] is the key of the node it
    designates, an iterator into the [watch] vector is a position
    ([watch.end()] is [length watch]). *)

From Stdlib Require Import ZArith String.
From stdpp Require Import gmap strings list fin_maps.

(** * Value model *)

Inductive asIDBExpandType :=
| Expand_None      (* no expansion *)
| Expand_Value     (* expands to display value *)
| Expand_Children  (* expands to display children *)
| Expand_Entries.  (* expands to display entries *)

#[global] Instance asIDBExpandType_eq_dec : EqDecision asIDBExpandType.
Proof. solve_decision. Defined.

(** [struct asIDBVarAddr { int typeId; void *address; }] *)
Record asIDBVarAddr := VarAddr { typeId : Z; address : Z }.

(** [asIDBVarAddr::operator==] *)
Definition asIDBVarAddr_eqb (a b : asIDBVarAddr) : bool :=
  (typeId a =? typeId b)%Z && (address a =? address b)%Z.

#[global] Instance asIDBVarAddr_eq_dec : EqDecision asIDBVarAddr.
Proof. solve_decision. Defined.

#[global] Instance asIDBVarAddr_countable : Countable asIDBVarAddr.
Proof.
  apply (inj_countable' (fun a => (typeId a, address a))
                        (fun p => VarAddr p.1 p.2)).
  by intros [].
Defined.

(** [struct asIDBVarView]: [var] is the [asIDBVarMap::iterator], that is the
    key of the map node it points to. *)
Record asIDBVarView := VarView {
  name : string;
  type : string;
  var  : asIDBVarAddr
}.

#[global] Instance asIDBVarView_eq_dec : EqDecision asIDBVarView.
Proof. solve_decision. Defined.

(** [struct asIDBVarValue]; the string member [value] is [value_text] here,
    the name [value] being taken by the member of [asIDBVarState]. *)
Record asIDBVarValue := VarValue {
  disabled   : bool;
  expandable : asIDBExpandType;
  value_text : string
}.

(** [asIDBVarValue() = default] *)
Definition asIDBVarValue_default : asIDBVarValue :=
  VarValue false Expand_None EmptyString.

(** [struct asIDBVarState]; [stackMemory] is the [unique_ptr<uint8_t[]>]:
    [None] when null, otherwise the base address of the owned allocation. *)
Record asIDBVarState := VarState {
  value           : asIDBVarValue;
  stackMemory     : option Z;
  queriedChildren : bool;
  children        : list asIDBVarView;
  entries         : list asIDBVarValue
}.

(** A value-initialised state, as [try_emplace] constructs it. *)
Definition asIDBVarState_default : asIDBVarState :=
  VarState asIDBVarValue_default None false [] [].

Inductive asIDBLocalType :=
| Parameter_  (* parameter sent to function *)
| Variable_   (* local named variable *)
| Temporary.  (* a temporary; has no name but has a stack offset & type *)

#[global] Instance asIDBLocalType_eq_dec : EqDecision asIDBLocalType.
Proof. solve_decision. Defined.

Definition asIDBLocalType_to_nat (t : asIDBLocalType) : nat :=
  match t with Parameter_ => 0 | Variable_ => 1 | Temporary => 2 end.

Definition asIDBLocalType_of_nat (n : nat) : asIDBLocalType :=
  match n with 0 => Parameter_ | 1 => Variable_ | _ => Temporary end.

#[global] Instance asIDBLocalType_countable : Countable asIDBLocalType.
Proof.
  apply (inj_countable' asIDBLocalType_to_nat asIDBLocalType_of_nat).
  by intros [].
Defined.

(** [struct asIDBLocalKey { uint8_t offset; asIDBLocalType type; }]; the
    member [type] is [key_type] here. *)
Record asIDBLocalKey := LocalKey { offset : Z; key_type : asIDBLocalType }.

(** Conversion of an [int] to [uint8_t]. *)
Definition to_uint8 (n : Z) : Z := (n mod 256)%Z.

(** The constructor [asIDBLocalKey(int offset, asIDBLocalType type)]:
    the member initialiser [offset(offset)] narrows the [int]. *)
Definition asIDBLocalKey_new (off : Z) (t : asIDBLocalType) : asIDBLocalKey :=
  LocalKey (to_uint8 off) t.

(** [asIDBLocalKey::operator==] *)
Definition asIDBLocalKey_eqb (a b : asIDBLocalKey) : bool :=
  (offset a =? offset b)%Z && bool_decide (key_type a = key_type b).

#[global] Instance asIDBLocalKey_eq_dec : EqDecision asIDBLocalKey.
Proof. solve_decision. Defined.

#[global] Instance asIDBLocalKey_countable : Countable asIDBLocalKey.
Proof.
  apply (inj_countable' (fun k => (offset k, key_type k))
                        (fun p => LocalKey p.1 p.2)).
  by intros [].
Defined.

(** * Hashing

    [std::hash] of the scalar types is the standard library's and left
    abstract; [size_t] has [size_bits] bits. *)
Section Hashing.
Variable size_bits : Z.
Variable hash_int hash_ptr hash_uint8 hash_size_t : Z -> Z.
Variable hash_local_type : asIDBLocalType -> Z.

Definition to_size_t (n : Z) : Z := (n mod 2 ^ size_bits)%Z.

(** [asIDBHashCombine<T>]: with [hasher] the [std::hash<T>],
    [seed ^= hasher(v) + 0x9e3779b9 + (seed<<6) + (seed>>2)]. *)
Definition asIDBHashCombine {T} (hasher : T -> Z) (seed : Z) (v : T) : Z :=
  Z.lxor seed
    (to_size_t (hasher v + 0x9e3779b9 + to_size_t (Z.shiftl seed 6)
                + Z.shiftr seed 2)).

(** [std::hash<asIDBVarAddr>]; the value combined is the [size_t] that
    [std::hash<void *>] returned. *)
Definition hash_asIDBVarAddr (key : asIDBVarAddr) : Z :=
  let h := hash_int (typeId key) in
  asIDBHashCombine hash_size_t h (hash_ptr (address key)).

(** [std::hash<asIDBLocalKey>] *)
Definition hash_asIDBLocalKey (key : asIDBLocalKey) : Z :=
  let h := hash_uint8 (offset key) in
  asIDBHashCombine hash_size_t h (hash_local_type (key_type key)).
End Hashing.

(** * The runtime's execution context

    [asIScriptContext] belongs to the scripting runtime; the debugger uses its
    reference count, its line callback slot and its call stack. Contexts live
    in a store indexed by their address, so that the pointer held by a cache
    aliases the object the host holds. *)

Record asIDBCallStackEntry := CallStackEntry {
  declaration   : string;
  entry_section : string;   (* the member [section] *)
  row           : Z;
  column        : Z
}.

(** A frame of the runtime's call stack: what [GetFunction(n)] and
    [GetLineNumber(n, &col, &sec)] answer, and whether the frame stands at the
    first instruction of its function. *)
Record as_frame := Frame {
  function_name : string;
  function_decl : string;
  frame_section : string;
  frame_line    : Z;
  frame_column  : Z;
  at_entry      : bool
}.

Record asIScriptContext := ScriptContext {
  refCount     : nat;
  lineCallback : bool;            (* a line callback is registered *)
  callstack    : list as_frame    (* innermost frame first *)
}.

(** [ctx->GetCallstackSize()] *)
Definition GetCallstackSize (c : asIScriptContext) : Z :=
  Z.of_nat (length (callstack c)).

(** [ctx->AddRef()] *)
Definition AddRef (c : asIScriptContext) : asIScriptContext :=
  ScriptContext (S (refCount c)) (lineCallback c) (callstack c).

(** [ctx->ClearLineCallback()] *)
Definition ClearLineCallback (c : asIScriptContext) : asIScriptContext :=
  ScriptContext (refCount c) false (callstack c).

(** [ctx->Release()]: the object is destroyed with its last reference. *)
Definition Release (c : asIScriptContext) : option asIScriptContext :=
  match refCount c with
  | 0 | 1 => None
  | S n => Some (ScriptContext n (lineCallback c) (callstack c))
  end.

(** * The execution cache *)

(** [class asIDBCache]. [evaluators] holds, per registered type id, the
    handle of the registered evaluator object; [removeFromWatch] is a
    position in [watch]. *)
Record asIDBCache := Cache {
  ctx             : Z;
  type_names      : gmap (Z * Z) string;
  var_states      : gmap asIDBVarAddr asIDBVarState;
  globalsCached   : bool;
  globals         : list asIDBVarView;
  locals          : gmap asIDBLocalKey (list asIDBVarView);
  watch           : list asIDBVarView;
  removeFromWatch : nat;
  sections        : gmap string string;
  system_function : string;
  call_stack      : list asIDBCallStackEntry;
  evaluators      : gmap Z nat
}.

Definition set_var_states (c : asIDBCache) (m : gmap asIDBVarAddr asIDBVarState)
  : asIDBCache :=
  Cache (ctx c) (type_names c) m (globalsCached c) (globals c) (locals c)
        (watch c) (removeFromWatch c) (sections c) (system_function c)
        (call_stack c) (evaluators c).

Definition set_globals (c : asIDBCache) (b : bool) (g : list asIDBVarView)
  : asIDBCache :=
  Cache (ctx c) (type_names c) (var_states c) b g (locals c)
        (watch c) (removeFromWatch c) (sections c) (system_function c)
        (call_stack c) (evaluators c).

Definition set_watch (c : asIDBCache) (w : list asIDBVarView) : asIDBCache :=
  Cache (ctx c) (type_names c) (var_states c) (globalsCached c) (globals c)
        (locals c) w (removeFromWatch c) (sections c) (system_function c)
        (call_stack c) (evaluators c).

Definition set_removeFromWatch (c : asIDBCache) (i : nat) : asIDBCache :=
  Cache (ctx c) (type_names c) (var_states c) (globalsCached c) (globals c)
        (locals c) (watch c) i (sections c) (system_function c)
        (call_stack c) (evaluators c).

Definition set_call_stack (c : asIDBCache) (s : list asIDBCallStackEntry)
  : asIDBCache :=
  Cache (ctx c) (type_names c) (var_states c) (globalsCached c) (globals c)
        (locals c) (watch c) (removeFromWatch c) (sections c)
        (system_function c) s (evaluators c).

(** The member initialisers of a fresh cache: empty containers,
    [globalsCached = false], [removeFromWatch = watch.end()]. *)
Definition asIDBCache_init (p : Z) : asIDBCache :=
  Cache p ∅ ∅ false [] ∅ [] 0 ∅ EmptyString [] ∅.

(** [asIDBCache::asIDBCache(asIScriptContext *ctx)]: [ctx->AddRef()]. *)
Definition asIDBCache_new (st : gmap Z asIScriptContext) (p : Z)
  : gmap Z asIScriptContext * asIDBCache :=
  (alter AddRef p st, asIDBCache_init p).

(** [asIDBCache::~asIDBCache()]:
    [ctx->ClearLineCallback(); ctx->Release();] *)
Definition asIDBCache_delete (st : gmap Z asIScriptContext) (c : asIDBCache)
  : gmap Z asIScriptContext :=
  match st !! ctx c with
  | Some o =>
      match Release (ClearLineCallback o) with
      | Some o' => <[ctx c := o']> st
      | None => delete (ctx c) st
      end
  | None => st
  end.

(** [asIDBCache::AddVarState]: [var_states.try_emplace(id)]; the result is
    the iterator, the [exists] output and the cache after the call. *)
Definition AddVarState (id : asIDBVarAddr) (c : asIDBCache)
  : asIDBVarAddr * bool * asIDBCache :=
  match var_states c !! id with
  | Some _ => (id, true, c)
  | None => (id, false,
             set_var_states c (<[id := asIDBVarState_default]> (var_states c)))
  end.

(** * Breakpoints *)

(** [struct asIDBBreakpointLocation { std::string_view section; int line; }] *)
Record asIDBBreakpointLocation := BreakpointLocation {
  section : string;
  line    : Z
}.

#[global] Instance asIDBBreakpointLocation_eq_dec :
  EqDecision asIDBBreakpointLocation.
Proof. solve_decision. Defined.

(** [struct asIDBBreakpoint]: the variant [location], built by the two
    factories [FileLocation] and [Function]. *)
Inductive asIDBBreakpoint :=
| FileLocation (loc : asIDBBreakpointLocation)
| Function (f : string).

#[global] Instance asIDBBreakpoint_eq_dec : EqDecision asIDBBreakpoint.
Proof. solve_decision. Defined.

#[global] Instance asIDBBreakpoint_countable : Countable asIDBBreakpoint.
Proof.
  apply (inj_countable'
    (fun b => match b with
              | FileLocation l => inl (section l, line l)
              | Function f => inr f
              end)
    (fun x => match x with
              | inl p => FileLocation (BreakpointLocation p.1 p.2)
              | inr f => Function f
              end)).
  by intros [[]|].
Defined.

(** [asIDBBreakpointLocation::operator==] *)
Definition asIDBBreakpointLocation_eqb (a b : asIDBBreakpointLocation) : bool :=
  String.eqb (section a) (section b) && (line a =? line b)%Z.

(** [asIDBBreakpoint::operator==]: equality of the variants. *)
Definition asIDBBreakpoint_eqb (a b : asIDBBreakpoint) : bool :=
  match a, b with
  | FileLocation x, FileLocation y => asIDBBreakpointLocation_eqb x y
  | Function f, Function g => String.eqb f g
  | _, _ => false
  end.

Section BreakpointHashing.
Variable size_bits : Z.
Variable hash_int hash_uint8 : Z -> Z.
Variable hash_string : string -> Z.

(** [std::hash<asIDBBreakpointLocation>] *)
Definition hash_asIDBBreakpointLocation (key : asIDBBreakpointLocation) : Z :=
  let h := hash_string (section key) in
  asIDBHashCombine size_bits hash_int h (line key).

(** [std::hash<asIDBBreakpoint>]; the tag [0x40000000] goes through
    [std::hash<uint8_t>] and is narrowed on the way. *)
Definition hash_asIDBBreakpoint (key : asIDBBreakpoint) : Z :=
  match key with
  | FileLocation loc =>
      let h := hash_uint8 (to_uint8 0x40000000) in
      asIDBHashCombine size_bits hash_asIDBBreakpointLocation h loc
  | Function f =>
      let h := hash_uint8 (to_uint8 0x00000000) in
      asIDBHashCombine size_bits hash_string h f
  end.
End BreakpointHashing.

(** * The debug controller *)

Inductive asIDBAction :=
| Action_None
| Action_StepInto
| Action_StepOver
| Action_StepOut.

(** [class asIDBDebugger]: [cache] is the [unique_ptr<asIDBCache>]. *)
Record asIDBDebugger := Debugger {
  breakpoints : gset asIDBBreakpoint;
  action      : asIDBAction;
  stack_size  : Z;
  cache       : option asIDBCache
}.

(** Modelled from the spec: the body of [asIDBDebugger::ToggleBreakpoint]
    is not in the sources at hand. It builds the [SourceLocation] key;
    toggling inserts if absent, removes if present; the result tells whether
    the breakpoint is now set. *)
Definition ToggleBreakpoint (d : asIDBDebugger) (sec : string) (ln : Z)
  : bool * asIDBDebugger :=
  let bp := FileLocation (BreakpointLocation sec ln) in
  if decide (bp ∈ breakpoints d)
  then (false, Debugger (breakpoints d ∖ {[bp]}) (action d) (stack_size d)
                        (cache d))
  else (true, Debugger ({[bp]} ∪ breakpoints d) (action d) (stack_size d)
                       (cache d)).

(** Modelled from the spec: breakpoint matching at an instruction boundary.
    A [SourceLocation] breakpoint with exactly the current section and line,
    or a [FunctionName] breakpoint naming the function being entered; either
    alone suffices. *)
Definition breakpoint_matches (bps : gset asIDBBreakpoint) (f : as_frame)
  : bool :=
  bool_decide
    (FileLocation (BreakpointLocation (frame_section f) (frame_line f)) ∈ bps)
  || (at_entry f && bool_decide (Function (function_name f) ∈ bps)).

(** Modelled from the spec: the break condition evaluated by the
    per-instruction callback. *)
Definition break_condition (d : asIDBDebugger) (o : asIScriptContext) : bool :=
  match action d with
  | Action_StepInto => true
  | Action_StepOver => (GetCallstackSize o <=? stack_size d)%Z
  | Action_StepOut => (GetCallstackSize o <? stack_size d)%Z
  | Action_None =>
      match callstack o with
      | f :: _ => breakpoint_matches (breakpoints d) f
      | [] => false
      end
  end.

(** Modelled from the spec: [asIDBCache::CacheCallstack], the eager snapshot
    of the call stack, top to bottom. *)
Definition CacheCallstack (o : asIScriptContext) (c : asIDBCache)
  : asIDBCache :=
  set_call_stack c
    (map (fun f => CallStackEntry (function_decl f) (frame_section f)
                                  (frame_line f) (frame_column f))
         (callstack o)).

(** What a firing of the callback leaves behind: the contexts, the
    controller, and whether the suspend hook was invoked. *)
Record callback_result := CallbackResult {
  cb_contexts  : gmap Z asIScriptContext;
  cb_debugger  : asIDBDebugger;
  cb_suspended : bool
}.

(** Modelled from the spec: [asIDBDebugger::DebugBreak], whose body is not in
    the sources at hand. The cache is constructed if absent (which takes a
    reference on the context), the call stack is captured, and the suspend
    hook is invoked. *)
Definition DebugBreak (st : gmap Z asIScriptContext) (p : Z)
    (d : asIDBDebugger) : callback_result :=
  let '(st1, c) := match cache d with
                   | Some c => (st, c)
                   | None => asIDBCache_new st p
                   end in
  let c1 := match st1 !! p with
            | Some o => CacheCallstack o c
            | None => c
            end in
  CallbackResult st1
    (Debugger (breakpoints d) (action d) (stack_size d) (Some c1)) true.

(** Modelled from the spec: [asIDBDebugger::LineCallback], whose body is not
    in the sources at hand. If a break condition holds the controller
    breaks; otherwise it returns at once. *)
Definition LineCallback (st : gmap Z asIScriptContext) (p : Z)
    (d : asIDBDebugger) : callback_result :=
  match st !! p with
  | Some o =>
      if break_condition d o then DebugBreak st p d
      else CallbackResult st d false
  | None => CallbackResult st d false
  end.

(** * The type evaluator registry *)

(** Type id flags of the runtime ([angelscript.h], [asETypeIdFlags]). *)
Definition asTYPEID_OBJHANDLE     : Z := 0x40000000.
Definition asTYPEID_HANDLETOCONST : Z := 0x20000000.
Definition asTYPEID_MASK_OBJECT   : Z := 0x1C000000.
Definition asTYPEID_MASK_SEQNBR   : Z := 0x03FFFFFF.

(** Modelled from the spec: the evaluator a dispatch resolves to. The two
    fixed evaluators of the sentinels, a registered evaluator (by its handle
    in [evaluators]), or one of the built-in fallbacks. *)
Inductive evaluator :=
| Evaluator_Uninit
| Evaluator_Null
| Evaluator_Registered (h : nat)
| Evaluator_Primitive
| Evaluator_Object.

(** The registry key of a type id: the bits of
    [asTYPEID_MASK_OBJECT | asTYPEID_MASK_SEQNBR]. *)
Definition registry_key (t : Z) : Z :=
  Z.land t (Z.lor asTYPEID_MASK_OBJECT asTYPEID_MASK_SEQNBR).

Definition is_handle (t : Z) : bool :=
  negb (Z.land t asTYPEID_OBJHANDLE =? 0)%Z.

(** Clearing the handle qualifiers of a type id. *)
Definition strip_handle (t : Z) : Z :=
  Z.land t (Z.lnot (Z.lor asTYPEID_OBJHANDLE asTYPEID_HANDLETOCONST)).

(** Modelled from the spec: the outcome of a dispatch. The evaluator, the
    address as the evaluator receives it, and the display annotation
    recording that the submitted address was a handle. *)
Record dispatch := Dispatch {
  dispatched   : evaluator;
  evaluated_id : asIDBVarAddr;
  from_handle  : bool
}.

Section Dispatch.
(** Reading the pointer stored at an address of the runtime's memory. *)
Variable deref : Z -> Z.
(** The registered evaluators, [asIDBTypeEvaluatorMap::evaluators]. *)
Variable registry : gmap Z nat.

(** Modelled from the spec: the uninitialised sentinel, an address that is
    null. *)
Definition is_uninit (id : asIDBVarAddr) : bool := (address id =? 0)%Z.

(** Modelled from the spec: the null sentinel, a handle holding the null
    pointer. *)
Definition is_null (id : asIDBVarAddr) : bool :=
  is_handle (typeId id) && (deref (address id) =? 0)%Z.

(** Modelled from the spec: the lookup for a concrete object. The
    registered map is consulted under the registry key; without a
    registration the built-in primitive formatter serves scalar kinds and
    the built-in composite formatter object kinds. *)
Definition lookup_evaluator (id : asIDBVarAddr) : evaluator :=
  match registry !! registry_key (typeId id) with
  | Some h => Evaluator_Registered h
  | None =>
      if (Z.land (typeId id) asTYPEID_MASK_OBJECT =? 0)%Z
      then Evaluator_Primitive
      else Evaluator_Object
  end.

(** Modelled from the spec: [asIDBTypeEvaluatorMap::GetEvaluator], whose
    body is not in the sources at hand. Sentinels first, by the fixed
    evaluators; then a handle is rewritten to the object it refers to;
    then the lookup. *)
Definition GetEvaluator (id : asIDBVarAddr) : dispatch :=
  if is_uninit id then Dispatch Evaluator_Uninit id false
  else if is_handle (typeId id) then
    if (deref (address id) =? 0)%Z
    then Dispatch Evaluator_Null id true
    else
      let id' := VarAddr (strip_handle (typeId id)) (deref (address id)) in
      Dispatch (lookup_evaluator id') id' true
  else Dispatch (lookup_evaluator id) id false.
End Dispatch.

(** * Caching the globals *)

(** A global variable as the module enumerates it. *)
Record as_global := Global {
  global_name : string;
  global_type : string;
  global_addr : asIDBVarAddr
}.

Definition set_state_value (s : asIDBVarState) (v : asIDBVarValue)
  : asIDBVarState :=
  VarState v (stackMemory s) (queriedChildren s) (children s) (entries s).

Section Globals.
(** [evaluators.Evaluate(cache, id)] *)
Variable Evaluate : asIDBCache -> asIDBVarAddr -> asIDBVarValue.

(** Modelled from the spec: caching one global, a step of [CacheGlobals].
    Its state is added or found, evaluated when new, and a view on it is
    appended to [globals]. *)
Definition cache_global (c : asIDBCache) (g : as_global) : asIDBCache :=
  let '(it, existed, c1) := AddVarState (global_addr g) c in
  let c2 := if existed then c1
            else set_var_states c1
                   (alter (fun s => set_state_value s (Evaluate c1 it)) it
                          (var_states c1)) in
  set_globals c2 (globalsCached c2)
    (globals c2 ++ [VarView (global_name g) (global_type g) it]).

(** Modelled from the spec: [asIDBCache::CacheGlobals], whose body is not
    in the sources at hand. It populates the global view list once per
    episode, guarded by [globalsCached]; re-invocation is a no-op. *)
Definition CacheGlobals (gs : list as_global) (c : asIDBCache)
  : asIDBCache :=
  if globalsCached c then c
  else let c1 := foldl cache_global c gs in
       set_globals c1 true (globals c1).
End Globals.

(** * The front end ([as_debugger_imgui.cpp])

    Only what the rendering functions do to the cache is kept; the drawing
    calls are dropped. What ImGui reports for an item is an input. *)

(** Modelled from the spec: [asIDBVarView::operator==] is declared in the
    header and defined out of line. Equality is by display name and
    identity of the referenced state. *)
Definition asIDBVarView_eqb (a b : asIDBVarView) : bool :=
  String.eqb (name a) (name b) && asIDBVarAddr_eqb (var a) (var b).

(** [std::find(watch.begin(), watch.end(), v)] as a position. *)
Fixpoint std_find (l : list asIDBVarView) (v : asIDBVarView) : nat :=
  match l with
  | [] => 0
  | x :: r => if asIDBVarView_eqb x v then 0 else S (std_find r v)
  end.

(** What ImGui answers for one tree item: the stored open state read by
    [GetStateStorage()->GetInt], the result of [TreeNodeEx], and
    [IsItemClicked(ImGuiMouseButton_Right)]. *)
Record ui_item := UiItem {
  opened        : Z;
  open          : bool;
  right_clicked : bool
}.

(** The cache under rendering, with the log of the
    [QueryVariableChildren] calls made so far. *)
Record render_state := RenderState {
  rs_cache   : asIDBCache;
  rs_queried : list asIDBVarAddr
}.

(** [!opened && filter && *filter && name.find(filter) == npos] *)
Definition filtered_out (u : ui_item) (filter : option string)
    (v : asIDBVarView) : bool :=
  (opened u =? 0)%Z &&
  match filter with
  | None => false
  | Some f =>
      negb (String.eqb f EmptyString) &&
      match String.index 0 f (name v) with Some _ => false | None => true end
  end.

(** The right-click branch of [RenderDebuggerVariable]. *)
Definition right_click (in_watch : bool) (varView : asIDBVarView)
    (c : asIDBCache) : asIDBCache :=
  let c1 := if in_watch
            then set_removeFromWatch c (std_find (watch c) varView)
            else c in
  if removeFromWatch c1 =? length (watch c1)
  then let c2 := set_watch c1 (watch c1 ++ [varView]) in
       set_removeFromWatch c2 (length (watch c2))
  else c1.

(** The tail of [RenderWatch]: erasing the entry marked for removal. *)
Definition erase_pending (c : asIDBCache) : asIDBCache :=
  if removeFromWatch c =? length (watch c) then c
  else let c1 := set_watch c (delete (removeFromWatch c) (watch c)) in
       set_removeFromWatch c1 (length (watch c1)).

(** [for (auto &child : var.children)] with its running index [i]:
    [PushID(i); RenderDebuggerVariable(child, ..); PopID(); i++]. *)
Fixpoint each_child
    (render : list nat -> asIDBVarView -> render_state -> option render_state)
    (path : list nat) (i : nat) (cs : list asIDBVarView) (s : render_state)
  : option render_state :=
  match cs with
  | [] => Some s
  | child :: rest =>
      match render (path ++ [i]) child s with
      | Some s' => each_child render path (S i) rest s'
      | None => None
      end
  end.

Section FrontEnd.
(** [cache->QueryVariableChildren(varIt)], [cache->CacheGlobals()] and
    [cache->CacheLocals(key)] are calls into the cache. *)
Variable QueryVariableChildren : asIDBVarAddr -> asIDBCache -> asIDBCache.
Variable CacheGlobals_ : asIDBCache -> asIDBCache.
Variable CacheLocals : asIDBLocalKey -> asIDBCache -> asIDBCache.

(** The first [if (open)] of [RenderDebuggerVariable]: children are
    queried when the state expands to children and [queriedChildren] is
    not set. *)
Definition expand_on_open (var : asIDBVarState) (varIt : asIDBVarAddr)
    (s : render_state) : render_state :=
  if bool_decide (expandable (value var) = Expand_Children)
  then if negb (queriedChildren var)
       then RenderState (QueryVariableChildren varIt (rs_cache s))
                        (rs_queried s ++ [varIt])
       else s
  else s.

(** [RenderDebuggerVariable]; [path] is the stack of [PushID] indices
    that identifies the item. A view whose iterator designates no state
    has no defined behaviour. The right-click branch leaves [var_states]
    alone, so the state read for [TreeNodeEx] is still the one tested by
    the first [if (open)]. *)
Fixpoint RenderDebuggerVariable (fuel : nat) (ui : list nat -> ui_item)
    (path : list nat) (varView : asIDBVarView) (filter : option string)
    (in_watch : bool) (s : render_state) : option render_state :=
  match fuel with
  | 0 => None
  | S fuel' =>
      let u := ui path in
      if filtered_out u filter varView then Some s
      else
        match var_states (rs_cache s) !! var varView with
        | None => None
        | Some var0 =>
            let s1 := if right_clicked u
                      then RenderState
                             (right_click in_watch varView (rs_cache s))
                             (rs_queried s)
                      else s in
            if open u then
              let s2 := expand_on_open var0 (var varView) s1 in
              match var_states (rs_cache s2) !! var varView with
              | None => None
              | Some var1 =>
                  if bool_decide
                       (expandable (value var1) = Expand_Children)
                  then
                    each_child
                      (fun p child =>
                         RenderDebuggerVariable fuel' ui p child filter
                                                in_watch)
                      path 0 (children var1) s2
                  else Some s2
              end
            else Some s1
        end
  end.

(** The row loop shared by the three tables:
    [for (int n = 0; n < f.size(); n++) RenderDebuggerVariable(f[n], ..)],
    [f] being a reference into the cache. *)
Fixpoint render_rows (fuel : nat) (f : asIDBCache -> list asIDBVarView)
    (ui : list nat -> ui_item) (filter : option string) (in_watch : bool)
    (n : nat) (s : render_state) : option render_state :=
  match fuel with
  | 0 => None
  | S fuel' =>
      match f (rs_cache s) !! n with
      | None => Some s
      | Some global =>
          match RenderDebuggerVariable fuel' ui [n] global filter in_watch s
          with
          | Some s' => render_rows fuel' f ui filter in_watch (S n) s'
          | None => None
          end
      end
  end.

(** [asIDBImGuiFrontend::RenderGlobals]; [table] is [BeginTable]. *)
Definition RenderGlobals (fuel : nat) (table : bool)
    (ui : list nat -> ui_item) (filter : string) (s : render_state)
  : option render_state :=
  let c := rs_cache s in
  let c1 := if negb (globalsCached c) then CacheGlobals_ c else c in
  let s1 := RenderState c1 (rs_queried s) in
  if table then render_rows fuel globals ui (Some filter) false 0 s1
  else Some s1.

(** [asIDBImGuiFrontend::RenderLocals] *)
Definition RenderLocals (fuel : nat) (table : bool)
    (ui : list nat -> ui_item) (filter : string)
    (stack_entry : asIDBLocalKey) (s : render_state)
  : option render_state :=
  let c := rs_cache s in
  let c1 := match locals c !! stack_entry with
            | None => CacheLocals stack_entry c
            | Some _ => c
            end in
  let s1 := RenderState c1 (rs_queried s) in
  match locals c1 !! stack_entry with
  | None => None
  | Some _ =>
      if table
      then render_rows fuel (fun c => default [] (locals c !! stack_entry))
                       ui (Some filter) false 0 s1
      else Some s1
  end.

(** [asIDBImGuiFrontend::RenderWatch] *)
Definition RenderWatch (fuel : nat) (table : bool)
    (ui : list nat -> ui_item) (s : render_state) : option render_state :=
  if table then
    match render_rows fuel watch ui None true 0 s with
    | Some s1 => Some (RenderState (erase_pending (rs_cache s1))
                                   (rs_queried s1))
    | None => None
    end
  else Some s.
End FrontEnd.

(** * Memory and the buffers of temporaries

    One address space holds the runtime's memory and the allocations the
    debugger makes; [debugger_owned] records which addresses belong to the
    latter. *)

Record heap := Heap {
  cells          : gmap Z Byte.byte;
  debugger_owned : gset Z
}.

(** Reading [n] bytes from address [a]; [None] if one is not mapped. *)
Fixpoint load (m : gmap Z Byte.byte) (a : Z) (n : nat)
  : option (list Byte.byte) :=
  match n with
  | 0 => Some []
  | S k =>
      match m !! a, load m (a + 1) k with
      | Some b, Some bs => Some (b :: bs)
      | _, _ => None
      end
  end.

(** Writing the bytes [bs] from address [a] on. *)
Fixpoint store (m : gmap Z Byte.byte) (a : Z) (bs : list Byte.byte)
  : gmap Z Byte.byte :=
  match bs with
  | [] => m
  | b :: r => store (<[a := b]> m) (a + 1) r
  end.

(** The addresses [base, base + n). *)
Definition block (base : Z) (n : nat) : gset Z :=
  list_to_set (seqZ base (Z.of_nat n)).

(** An address above every address in use; never null. *)
Definition fresh_base (h : heap) : Z :=
  set_fold (fun a r => Z.max (a + 1) r) 1%Z
           (dom (cells h) ∪ debugger_owned h).

(** [std::make_unique<uint8_t[]>(n)]: a fresh, zeroed allocation owned by
    the debugger. *)
Definition make_unique (n : nat) (h : heap) : Z * heap :=
  let base := fresh_base h in
  (base, Heap (store (cells h) base (replicate n Byte.x00))
              (debugger_owned h ∪ block base (Nat.max 1 n))).

(** [memcpy(dst, src, n)] *)
Definition memcpy (dst src : Z) (n : nat) (h : heap) : option heap :=
  match load (cells h) src n with
  | Some bs => Some (Heap (store (cells h) dst bs) (debugger_owned h))
  | None => None
  end.

Definition set_stackMemory (s : asIDBVarState) (b : option Z)
  : asIDBVarState :=
  VarState (value s) b (queriedChildren s) (children s) (entries s).

(** Modelled from the spec: capturing a temporary, the code of which is not
    in the sources at hand. The bytes are copied out at capture time into a
    buffer the state owns, and the address reported for the state is that of
    the buffer. *)
Definition capture_temporary (tid ptr : Z) (size : nat) (h : heap)
    (c : asIDBCache) : option (asIDBVarAddr * heap * asIDBCache) :=
  let '(buf, h1) := make_unique size h in
  match memcpy buf ptr size h1 with
  | None => None
  | Some h2 =>
      let '(it, _, c1) := AddVarState (VarAddr tid buf) c in
      Some (it, h2,
            set_var_states c1
              (alter (fun s => set_stackMemory s (Some buf)) it
                     (var_states c1)))
  end.

(** What the runtime does to its memory once it moves on. *)
Inductive runtime_op :=
| Runtime_write (a : Z) (b : Byte.byte)
| Runtime_free (a : Z).

Definition runtime_target (op : runtime_op) : Z :=
  match op with Runtime_write a _ => a | Runtime_free a => a end.

Definition runtime_step (h : heap) (op : runtime_op) : heap :=
  match op with
  | Runtime_write a b => Heap (<[a := b]> (cells h)) (debugger_owned h)
  | Runtime_free a => Heap (delete a (cells h)) (debugger_owned h)
  end.

(** * Operations on a live cache *)

Inductive cache_op :=
| Op_AddVarState (id : asIDBVarAddr)
| Op_CacheGlobals (gs : list as_global)
| Op_right_click (in_watch : bool) (v : asIDBVarView)
| Op_erase_pending.

Definition run_cache_op
    (Evaluate : asIDBCache -> asIDBVarAddr -> asIDBVarValue)
    (c : asIDBCache) (op : cache_op) : asIDBCache :=
  match op with
  | Op_AddVarState id => (AddVarState id c).2
  | Op_CacheGlobals gs => CacheGlobals Evaluate gs c
  | Op_right_click w v => right_click w v c
  | Op_erase_pending => erase_pending c
  end.

(** * Rendering over time *)

(** The state designated by [k] exists and has [queriedChildren] set. *)
Definition queried_in (c : asIDBCache) (k : asIDBVarAddr) : Prop :=
  exists st, var_states c !! k = Some st /\ queriedChildren st = true.

(** An operation on the cache that resets no [queriedChildren]. *)
Definition keeps_queried (f : asIDBCache -> asIDBCache) : Prop :=
  forall c k, queried_in c k -> queried_in (f c) k.

(** [QueryVariableChildren] sets [queriedChildren] on the state it is
    called for. *)
Definition marks_queried
    (QVC : asIDBVarAddr -> asIDBCache -> asIDBCache) : Prop :=
  forall it c, is_Some (var_states c !! it) -> queried_in (QVC it c) it.

(** What happens to the cache during an episode, as far as rendering can
    see: calls of [RenderDebuggerVariable] that return, interleaved with
    other operations on the cache that reset no [queriedChildren]. *)
Inductive rendering (QVC : asIDBVarAddr -> asIDBCache -> asIDBCache)
  : render_state -> render_state -> Prop :=
| rendering_done s : rendering QVC s s
| rendering_variable s s1 s2 fuel ui path v filter in_watch :
    RenderDebuggerVariable QVC fuel ui path v filter in_watch s = Some s1 ->
    rendering QVC s1 s2 ->
    rendering QVC s s2
| rendering_other s s2 f :
    keeps_queried f ->
    rendering QVC (RenderState (f (rs_cache s)) (rs_queried s)) s2 ->
    rendering QVC s s2.

(** Every logged expansion request is for a distinct state, and each of
    those states has [queriedChildren] set. *)
Definition queried_once (s : render_state) : Prop :=
  NoDup (rs_queried s) /\
  forall k, k ∈ rs_queried s -> queried_in (rs_cache s) k.

(** A [QueryVariableChildren] for a composite without children: the
    target's lists are left empty and its flag is set. *)
Definition query_no_children (it : asIDBVarAddr) (c : asIDBCache)
  : asIDBCache :=
  set_var_states c
    (alter (fun st => VarState (value st) (stackMemory st) true []
                               (entries st))
           it (var_states c)).

(** * The host's side of the context, and the watch window over time *)

(** [ctx->Release()] on the context at address [p] of the store: the host,
    or any other holder, giving a reference back. *)
Definition Release_at (p : Z) (st : gmap Z asIScriptContext)
  : gmap Z asIScriptContext :=
  match st !! p with
  | Some o =>
      match Release o with
      | Some o' => <[p := o']> st
      | None => delete p st
      end
  | None => st
  end.

(** What the watch list undergoes: right clicks, inside or outside the
    watch window, and the tail of [RenderWatch]. *)
Inductive watch_op :=
| Watch_click (in_watch : bool) (v : asIDBVarView)
| Watch_tail.

Definition run_watch_op (c : asIDBCache) (op : watch_op) : asIDBCache :=
  match op with
  | Watch_click w v => right_click w v c
  | Watch_tail => erase_pending c
  end.

(** The cache [c'] differs from [c] in [watch] and [removeFromWatch] at
    most. *)
Definition only_watch_differs (c c' : asIDBCache) : Prop :=
  c' = set_removeFromWatch (set_watch c (watch c')) (removeFromWatch c').

(** The log was extended by [l], and if by nothing then the cache differs
    in the watch members at most. *)
Definition extends_quietly (s s' : render_state) : Prop :=
  exists l, rs_queried s' = rs_queried s ++ l /\
            (l = [] -> only_watch_differs (rs_cache s) (rs_cache s')).

(** * The front end object and its frame loop

    [as_debugger_imgui.cpp] keeps, in the front end, the selected call stack
    entry, the row and the countdown of the pending cursor update, and the
    text editor; the editor belongs to another library and is kept as the
    list of the calls made on it. *)

Inductive editor_call :=
| Editor_SetReadOnlyEnabled (b : bool)
| Editor_SetLanguage_AngelScript
| Editor_ClearCursors
| Editor_ClearErrorMarkers
| Editor_SetText (text : string)
| Editor_Render
| Editor_AddErrorMarker (at_line : Z) (message : string)
| Editor_SetCursor (at_line at_column : Z).

(** [class asIDBImGuiFrontend], as far as its members are used here. *)
Record asIDBImGuiFrontend := Frontend {
  debugger             : asIDBDebugger;
  selected_stack_entry : Z;
  update_row           : Z;
  update_cursor        : Z;
  resetOpenStates      : bool;
  setupDock            : bool;
  editor               : list editor_call
}.

(** The front end together with the contexts of the runtime and the log of
    [QueryVariableChildren] calls. *)
Record frontend_world := World {
  w_contexts : gmap Z asIScriptContext;
  w_frontend : asIDBImGuiFrontend;
  w_queried  : list asIDBVarAddr
}.

(** [asIDBFrameResult], the answer of [BackendNewFrame]. *)
Inductive asIDBFrameResult :=
| FrameResult_Exit
| FrameResult_Defer
| FrameResult_Other.

(** What ImGui reports for one of the tables: [Begin] of its window,
    [BeginTable], the filter buffer after [InputText], and the items. *)
Record panel_input := PanelInput {
  p_begin  : bool;
  p_table  : bool;
  p_filter : string;
  p_items  : list nat -> ui_item
}.

(** What the backend and ImGui report during one call of [Render]. *)
Record frame_input := FrameInput {
  in_backend          : asIDBFrameResult;
  in_show             : bool;         (* Begin("DockSpace") *)
  in_menu_bar         : bool;         (* BeginMainMenuBar *)
  in_menu_continue    : bool;
  in_menu_step_into   : bool;
  in_menu_step_over   : bool;
  in_menu_step_out    : bool;
  in_begin_call_stack : bool;
  in_stack_clicked    : nat -> bool;  (* Selectable of the n-th entry *)
  in_parameters       : panel_input;
  in_locals           : panel_input;
  in_temporaries      : panel_input;
  in_globals          : panel_input;
  in_watch            : panel_input;
  in_begin_source     : bool;
  in_key_F5           : bool;
  in_key_F10          : bool;
  in_key_F11          : bool;
  in_mod_shift        : bool
}.

Definition set_debugger (fe : asIDBImGuiFrontend) (d : asIDBDebugger)
  : asIDBImGuiFrontend :=
  Frontend d (selected_stack_entry fe) (update_row fe) (update_cursor fe)
           (resetOpenStates fe) (setupDock fe) (editor fe).

Definition set_cache (d : asIDBDebugger) (c : option asIDBCache)
  : asIDBDebugger :=
  Debugger (breakpoints d) (action d) (stack_size d) c.

(** The loop over [cache->call_stack] in the Call Stack window: an entry
    whose [Selectable] reports a click becomes the selected one and asks for
    the text to be reset. *)
Fixpoint call_stack_loop (clicked : nat -> bool) (n : nat)
    (entries : list asIDBCallStackEntry) (selected : Z) (resetText : bool)
  : Z * bool :=
  match entries with
  | [] => (selected, resetText)
  | _ :: rest =>
      if clicked n
      then call_stack_loop clicked (S n) rest (Z.of_nat n) true
      else call_stack_loop clicked (S n) rest selected resetText
  end.

(** [else if (update_cursor) { if (!--update_cursor) { .. } }] *)
Definition cursor_countdown (fe : asIDBImGuiFrontend) : asIDBImGuiFrontend :=
  if (update_cursor fe =? 0)%Z then fe
  else
    let n := (update_cursor fe - 1)%Z in
    Frontend (debugger fe) (selected_stack_entry fe) (update_row fe) n
             (resetOpenStates fe) (setupDock fe)
             (if (n =? 0)%Z
              then editor fe ++
                   [Editor_AddErrorMarker (update_row fe - 1) "Stack Entry";
                    Editor_SetCursor (update_row fe - 1) 0]
              else editor fe).

Section FrameLoop.
Variable QueryVariableChildren : asIDBVarAddr -> asIDBCache -> asIDBCache.
Variable CacheGlobals_ : asIDBCache -> asIDBCache.
Variable CacheLocals : asIDBLocalKey -> asIDBCache -> asIDBCache.
(** [FetchSource(func->GetModule(), sec)], for the frame it is asked for. *)
Variable FetchSource : as_frame -> string.
(** The debugger's [Resume], [StepInto], [StepOver] and [StepOut]. *)
Variable Resume StepInto StepOver StepOut :
  gmap Z asIScriptContext * asIDBDebugger ->
  gmap Z asIScriptContext * asIDBDebugger.

(** [asIDBImGuiFrontend::ChangeScript]. Dereferencing a missing cache or a
    missing function has no defined behaviour. *)
Definition ChangeScript (w : frontend_world) : option frontend_world :=
  let fe := w_frontend w in
  match cache (debugger fe) with
  | None => None
  | Some c =>
      match w_contexts w !! ctx c with
      | None => None
      | Some o =>
          if (selected_stack_entry fe <? 0)%Z then None
          else
            match callstack o !! Z.to_nat (selected_stack_entry fe) with
            | None => None
            | Some func =>
                Some (World (w_contexts w)
                        (Frontend (debugger fe) (selected_stack_entry fe)
                           (frame_line func) 2 true (setupDock fe)
                           (editor fe ++
                            [Editor_ClearCursors; Editor_ClearErrorMarkers;
                             Editor_SetText (FetchSource func)]))
                        (w_queried w))
            end
      end
  end.

(** [asIDBImGuiFrontend::SetupImGui], after the ImGui set-up calls. *)
Definition SetupImGui (w : frontend_world) : option frontend_world :=
  let fe := w_frontend w in
  ChangeScript
    (World (w_contexts w)
       (Frontend (debugger fe) (selected_stack_entry fe) (update_row fe)
          (update_cursor fe) (resetOpenStates fe) (setupDock fe)
          (editor fe ++ [Editor_SetReadOnlyEnabled true;
                         Editor_SetLanguage_AngelScript]))
       (w_queried w)).

(** The main menu bar of [Render]. *)
Definition menu_action (inp : frame_input)
    (dw : gmap Z asIScriptContext * asIDBDebugger)
  : gmap Z asIScriptContext * asIDBDebugger :=
  if in_menu_bar inp then
    if in_menu_continue inp then Resume dw
    else if in_menu_step_into inp then StepInto dw
    else if in_menu_step_over inp then StepOver dw
    else if in_menu_step_out inp then StepOut dw
    else dw
  else dw.

(** The key bindings at the end of [Render]. *)
Definition key_action (inp : frame_input)
    (dw : gmap Z asIScriptContext * asIDBDebugger)
  : gmap Z asIScriptContext * asIDBDebugger :=
  if in_key_F5 inp then Resume dw
  else if in_key_F10 inp then StepOver dw
  else if in_key_F11 inp && negb (in_mod_shift inp) then StepInto dw
  else if in_key_F11 inp && in_mod_shift inp then StepOut dw
  else dw.

(** One of the three windows of locals:
    [if (Begin(..)) { if (full) { RenderLocals(filterBuf, key); } }]. *)
Definition locals_window (fuel : nat) (full : bool) (p : panel_input)
    (key : asIDBLocalKey) (s : render_state) : option render_state :=
  if p_begin p && full
  then RenderLocals QueryVariableChildren CacheLocals fuel (p_table p)
                    (p_items p) (p_filter p) key s
  else Some s.

(** The windows of [Render] that work on the cache, in the order they are
    drawn: Parameters, Locals, Temporaries, Globals, Watch. *)
Definition cache_windows (fuel : nat) (full : bool) (inp : frame_input)
    (selected : Z) (s : render_state) : option render_state :=
  match locals_window fuel full (in_parameters inp)
          (asIDBLocalKey_new selected Parameter_) s with
  | None => None
  | Some s1 =>
  match locals_window fuel full (in_locals inp)
          (asIDBLocalKey_new selected Variable_) s1 with
  | None => None
  | Some s2 =>
  match locals_window fuel full (in_temporaries inp)
          (asIDBLocalKey_new selected Temporary) s2 with
  | None => None
  | Some s3 =>
  match (if p_begin (in_globals inp) && full
         then RenderGlobals QueryVariableChildren CacheGlobals_ fuel
                (p_table (in_globals inp)) (p_items (in_globals inp))
                (p_filter (in_globals inp)) s3
         else Some s3) with
  | None => None
  | Some s4 =>
      if p_begin (in_watch inp) && full
      then RenderWatch QueryVariableChildren fuel (p_table (in_watch inp))
                       (p_items (in_watch inp)) s4
      else Some s4
  end end end end.

(** [asIDBImGuiFrontend::Render]; the result is the returned flag and what
    the frame leaves behind. *)
Definition Render (fuel : nat) (full : bool) (inp : frame_input)
    (w : frontend_world) : option (bool * frontend_world) :=
  match in_backend inp with
  | FrameResult_Exit => Some (false, w)
  | result =>
      let full := match result with
                  | FrameResult_Defer => false
                  | _ => full
                  end in
      let fe := w_frontend w in
      (* the windows *)
      let shown :=
        if in_show inp then
          let '(st1, d1) := menu_action inp (w_contexts w, debugger fe) in
          match cache d1 with
          | None => None
          | Some c =>
              let '(selected, resetText) :=
                if in_begin_call_stack inp && full
                then call_stack_loop (in_stack_clicked inp) 0 (call_stack c)
                                     (selected_stack_entry fe) false
                else (selected_stack_entry fe, false) in
              match cache_windows fuel full inp selected
                      (RenderState c (w_queried w)) with
              | None => None
              | Some s =>
                  Some (st1, set_cache d1 (Some (rs_cache s)), selected,
                        resetText, rs_queried s,
                        if in_begin_source inp && full
                        then editor fe ++ [Editor_Render] else editor fe)
              end
          end
        else Some (w_contexts w, debugger fe, selected_stack_entry fe, false,
                   w_queried w, editor fe) in
      match shown with
      | None => None
      | Some (st1, d1, selected, resetText, queried, ed) =>
          let w1 := World st1
                      (Frontend d1 selected (update_row fe) (update_cursor fe)
                                (resetOpenStates fe) false ed)
                      queried in
          (* the pending text or cursor update *)
          match (if resetText then ChangeScript w1
                 else Some (World st1 (cursor_countdown (w_frontend w1))
                                  queried)) with
          | None => None
          | Some w2 =>
              (* the keys *)
              let '(st3, d3) :=
                key_action inp (w_contexts w2, debugger (w_frontend w2)) in
              Some (true,
                    World st3 (set_debugger (w_frontend w2) d3)
                          (w_queried w2))
          end
      end
  end.
End FrameLoop.

(** No item of the main menu reports a click. *)
Definition no_menu_click (inp : frame_input) : Prop :=
  in_menu_bar inp = false \/
  (in_menu_continue inp = false /\ in_menu_step_into inp = false /\
   in_menu_step_over inp = false /\ in_menu_step_out inp = false).

(** None of the bound keys is pressed. *)
Definition no_key_pressed (inp : frame_input) : Prop :=
  in_key_F5 inp = false /\ in_key_F10 inp = false /\ in_key_F11 inp = false.

Definition set_selected_stack_entry (fe : asIDBImGuiFrontend) (n : Z)
  : asIDBImGuiFrontend :=
  Frontend (debugger fe) n (update_row fe) (update_cursor fe)
           (resetOpenStates fe) (setupDock fe) (editor fe).

(** The two editor calls that place the marker and the cursor on [row]. *)
Definition cursor_update (row : Z) : list editor_call :=
  [Editor_AddErrorMarker (row - 1) "Stack Entry";
   Editor_SetCursor (row - 1) 0].

(** A table window that is not begun. *)
Definition closed_panel : panel_input :=
  PanelInput false false EmptyString (fun _ => UiItem 0 false false).

(** A frame in which only the dock space window is begun: no menu bar, no
    other window, no key. *)
Definition bare_frame : frame_input :=
  FrameInput FrameResult_Other true false false false false false
             false (fun _ => false)
             closed_panel closed_panel closed_panel closed_panel closed_panel
             false false false false false.

(** A small suspended session: a context two frames deep, a cache with the
    snapshot of its call stack, and a front end that has just been
    created. *)
Definition sample_context : asIScriptContext :=
  ScriptContext 1 true
    [Frame "f" "void f()" "main.as" 10 1 false;
     Frame "main" "void main()" "main.as" 3 1 false].

Definition sample_world (with_cache : bool) : frontend_world :=
  World {[ 1%Z := sample_context ]}
    (Frontend
       (Debugger ∅ Action_None 0
          (if with_cache
           then Some (set_call_stack (asIDBCache_init 1)
                        [CallStackEntry "void f()" "main.as" 10 1;
                         CallStackEntry "void main()" "main.as" 3 1])
           else None))
       0 0 0 false true [])
    [].

(** A full frame in which the Call Stack window is drawn and its second
    entry is clicked. *)
Definition select_second_frame : frame_input :=
  FrameInput FrameResult_Other true false false false false false
             true (fun n => bool_decide (n = 1))
             closed_panel closed_panel closed_panel closed_panel closed_panel
             false false false false false.

(** * Theorems *)

(** ** Keys *)

Lemma asIDBVarAddr_eqb_eq (a b : asIDBVarAddr) :
  asIDBVarAddr_eqb a b = true <-> a = b.
Proof.
  unfold asIDBVarAddr_eqb. destruct a as [t1 p1], b as [t2 p2]; simpl.
  rewrite andb_true_iff, !Z.eqb_eq. split.
  - intros [-> ->]. reflexivity.
  - intros [= -> ->]. done.
Qed.

Lemma asIDBLocalKey_eqb_eq (a b : asIDBLocalKey) :
  asIDBLocalKey_eqb a b = true <-> a = b.
Proof.
  unfold asIDBLocalKey_eqb. destruct a as [o1 t1], b as [o2 t2]; simpl.
  rewrite andb_true_iff, Z.eqb_eq, bool_decide_eq_true. split.
  - intros [-> ->]. reflexivity.
  - intros [= -> ->]. done.
Qed.

Lemma to_uint8_congr (o1 o2 : Z) :
  ((o1 - o2) mod 256 = 0)%Z -> to_uint8 o1 = to_uint8 o2.
Proof.
  unfold to_uint8. intros H.
  apply Z.mod_divide in H; [|lia]. destruct H as [k Hk].
  replace o1 with (o2 + k * 256)%Z by lia.
  apply Z.mod_add. lia.
Qed.

(** C10: the local key stores the stack offset in 8 bits. A key built from
    an [int] offset holds that offset modulo 256; two locals of one kind
    whose offsets differ by a multiple of 256 give equal keys, which compare
    equal, hash identically and designate one entry of the locals map. *)
Theorem asIDBLocalKey_offset_mod_256
    (size_bits : Z) (hash_uint8 hash_size_t : Z -> Z)
    (hash_local_type : asIDBLocalType -> Z)
    (o1 o2 : Z) (kind : asIDBLocalType)
    (m : gmap asIDBLocalKey (list asIDBVarView)) (vs : list asIDBVarView) :
  ((o1 - o2) mod 256 = 0)%Z ->
  offset (asIDBLocalKey_new o1 kind) = (o1 mod 256)%Z /\
  (0 <= offset (asIDBLocalKey_new o1 kind) < 256)%Z /\
  asIDBLocalKey_new o1 kind = asIDBLocalKey_new o2 kind /\
  asIDBLocalKey_eqb (asIDBLocalKey_new o1 kind) (asIDBLocalKey_new o2 kind)
    = true /\
  hash_asIDBLocalKey size_bits hash_uint8 hash_size_t hash_local_type
    (asIDBLocalKey_new o1 kind)
  = hash_asIDBLocalKey size_bits hash_uint8 hash_size_t hash_local_type
      (asIDBLocalKey_new o2 kind) /\
  m !! asIDBLocalKey_new o1 kind = m !! asIDBLocalKey_new o2 kind /\
  <[asIDBLocalKey_new o1 kind := vs]> m !! asIDBLocalKey_new o2 kind = Some vs.
Proof.
  intros Hmod.
  assert (Hk : asIDBLocalKey_new o1 kind = asIDBLocalKey_new o2 kind).
  { unfold asIDBLocalKey_new. f_equal. by apply to_uint8_congr. }
  split; [reflexivity|]. split.
  { simpl. unfold to_uint8. apply Z.mod_pos_bound. lia. }
  split; [exact Hk|]. split; [by apply asIDBLocalKey_eqb_eq|].
  rewrite Hk. split; [reflexivity|]. split; [reflexivity|].
  apply lookup_insert_eq.
Qed.

Lemma asIDBLocalKey_offset_mod_256_witness :
  offset (asIDBLocalKey_new 257 Variable_) = 1%Z /\
  asIDBLocalKey_new 257 Variable_ = asIDBLocalKey_new 1 Variable_.
Proof.
  pose proof (asIDBLocalKey_offset_mod_256 64 (fun z => z) (fun z => z)
                (fun t => Z.of_nat (asIDBLocalType_to_nat t))
                257 1 Variable_ ∅ [] eq_refl) as (H1 & _ & H2 & _).
  split; [exact H1 | exact H2].
Defined.

(** ** The address-keyed store *)

Lemma AddVarState_iterator (id : asIDBVarAddr) (c : asIDBCache) :
  (AddVarState id c).1.1 = id.
Proof. unfold AddVarState. by destruct (var_states c !! id). Qed.

Lemma AddVarState_present (id : asIDBVarAddr) (c : asIDBCache) s :
  var_states c !! id = Some s -> AddVarState id c = (id, true, c).
Proof. unfold AddVarState. by intros ->. Qed.

Lemma AddVarState_keeps (id k : asIDBVarAddr) (c : asIDBCache) s :
  var_states c !! k = Some s ->
  var_states (AddVarState id c).2 !! k = Some s.
Proof.
  intros Hk. unfold AddVarState.
  destruct (var_states c !! id) eqn:Hid; simpl; [done|].
  rewrite lookup_insert_ne; [done|]. intros ->. congruence.
Qed.

(** A run of [AddVarState] calls, keeping the last cache. *)
Definition AddVarState_all (ids : list asIDBVarAddr) (c : asIDBCache)
  : asIDBCache :=
  foldl (fun c id => (AddVarState id c).2) c ids.

Lemma AddVarState_all_keeps ids k c s :
  var_states c !! k = Some s ->
  var_states (AddVarState_all ids c) !! k = Some s.
Proof.
  revert c. induction ids as [|id ids IH]; intros c Hk; simpl; [done|].
  apply IH. by apply AddVarState_keeps.
Qed.

(** C2: for an address [a] not yet cached, the first [AddVarState a] reports
    [exists = false] and creates the entry; a second call, also after calls
    for other addresses [mid], reports [exists = true], returns the same
    iterator, designates the same state and changes nothing. Any [b] with
    [b == a] hashes like [a] and finds that entry, any other [b] gets
    another one. *)
Theorem AddVarState_twice (c : asIDBCache) (a : asIDBVarAddr)
    (mid : list asIDBVarAddr)
    (size_bits : Z) (hash_int hash_ptr hash_size_t : Z -> Z) :
  var_states c !! a = None ->
  let r1 := AddVarState a c in
  let c1 := AddVarState_all mid r1.2 in
  let r2 := AddVarState a c1 in
  r1.1.2 = false /\
  r2.1.2 = true /\
  r2.1.1 = r1.1.1 /\
  r2.2 = c1 /\
  var_states r1.2 !! r1.1.1 = Some asIDBVarState_default /\
  var_states r2.2 !! r2.1.1 = var_states r1.2 !! r1.1.1 /\
  size (var_states r1.2) = S (size (var_states c)) /\
  (forall b, asIDBVarAddr_eqb a b = true ->
             hash_asIDBVarAddr size_bits hash_int hash_ptr hash_size_t b
             = hash_asIDBVarAddr size_bits hash_int hash_ptr hash_size_t a /\
             AddVarState b c1 = (r1.1.1, true, c1)) /\
  (forall b, asIDBVarAddr_eqb a b = false ->
             (AddVarState b c1).1.1 <> r1.1.1).
Proof.
  intros Hnone r1 c1 r2.
  assert (Hr1 : r1 = (a, false,
            set_var_states c (<[a := asIDBVarState_default]> (var_states c)))).
  { subst r1. unfold AddVarState. by rewrite Hnone. }
  assert (H1 : var_states r1.2 !! a = Some asIDBVarState_default).
  { rewrite Hr1. simpl. apply lookup_insert_eq. }
  assert (Hc1 : var_states c1 !! a = Some asIDBVarState_default).
  { subst c1. by apply AddVarState_all_keeps. }
  assert (Hr2 : r2 = (a, true, c1)).
  { subst r2. by eapply AddVarState_present. }
  rewrite Hr2. rewrite Hr1 in *. simpl in *.
  split; [done|]. split; [done|]. split; [done|]. split; [done|].
  split; [apply lookup_insert_eq|].
  split; [by rewrite Hc1, lookup_insert_eq|].
  split; [by apply map_size_insert_None|]. split.
  - intros b Hb. apply asIDBVarAddr_eqb_eq in Hb. subst b.
    split; [done|]. by eapply AddVarState_present.
  - intros b Hb Heq. rewrite AddVarState_iterator in Heq. subst b.
    assert (asIDBVarAddr_eqb a a = true) by (by apply asIDBVarAddr_eqb_eq).
    congruence.
Qed.

Lemma AddVarState_twice_witness :
  (AddVarState (VarAddr 11 4096)
     (AddVarState_all [VarAddr 11 4100; VarAddr 12 4096]
        (AddVarState (VarAddr 11 4096) (asIDBCache_init 1)).2)).1
  = (VarAddr 11 4096, true).
Proof.
  pose proof (AddVarState_twice (asIDBCache_init 1) (VarAddr 11 4096)
                [VarAddr 11 4100; VarAddr 12 4096]
                64 (fun z => z) (fun z => z) (fun z => z) eq_refl)
    as (_ & H2 & H3 & _).
  simpl in H2, H3.
  destruct (AddVarState _ _) as [[it ex] c2]. simpl in *. by subst.
Defined.

(** ** Breakpoints *)

Lemma asIDBBreakpoint_eqb_eq (a b : asIDBBreakpoint) :
  asIDBBreakpoint_eqb a b = true <-> a = b.
Proof.
  destruct a as [[s1 l1]|f], b as [[s2 l2]|g]; simpl;
    unfold asIDBBreakpointLocation_eqb; simpl.
  - rewrite andb_true_iff, String.eqb_eq, Z.eqb_eq. split.
    + intros [-> ->]. reflexivity.
    + intros [= -> ->]. done.
  - split; discriminate.
  - split; discriminate.
  - rewrite String.eqb_eq. split; [intros ->; reflexivity | intros [= ->]; done].
Qed.

Lemma toggle_off_on (bps : gset asIDBBreakpoint) (bp : asIDBBreakpoint) :
  bp ∈ bps -> {[bp]} ∪ bps ∖ {[bp]} = bps.
Proof.
  intros Hin. apply set_eq. intros x.
  rewrite elem_of_union, elem_of_difference, elem_of_singleton.
  destruct (decide (x = bp)) as [->|]; tauto.
Qed.

Lemma toggle_on_off (bps : gset asIDBBreakpoint) (bp : asIDBBreakpoint) :
  bp ∉ bps -> ({[bp]} ∪ bps) ∖ {[bp]} = bps.
Proof.
  intros Hin. apply set_eq. intros x.
  rewrite elem_of_difference, elem_of_union, elem_of_singleton.
  destruct (decide (x = bp)) as [->|]; tauto.
Qed.

(** C3: [ToggleBreakpoint s l] builds the [FileLocation] key for [(s, l)]
    and flips its membership in the breakpoint set, leaving every other
    breakpoint and the rest of the controller alone; it returns [true]
    exactly when the breakpoint is set afterwards; toggling the same
    location twice in a row restores the original set. *)
Theorem ToggleBreakpoint_flips_membership (d : asIDBDebugger) (s : string)
    (l : Z) :
  let bp := FileLocation (BreakpointLocation s l) in
  let r := ToggleBreakpoint d s l in
  (r.1 = true <-> bp ∈ breakpoints r.2) /\
  (bp ∈ breakpoints r.2 <-> bp ∉ breakpoints d) /\
  (forall b, asIDBBreakpoint_eqb b bp = false ->
             (b ∈ breakpoints r.2 <-> b ∈ breakpoints d)) /\
  action r.2 = action d /\ stack_size r.2 = stack_size d /\
  cache r.2 = cache d /\
  (ToggleBreakpoint r.2 s l).1 = negb r.1 /\
  breakpoints (ToggleBreakpoint r.2 s l).2 = breakpoints d /\
  (ToggleBreakpoint r.2 s l).2 = d.
Proof.
  intros bp r. subst r. unfold ToggleBreakpoint. fold bp.
  assert (Hne : forall b, asIDBBreakpoint_eqb b bp = false -> b <> bp).
  { intros b Hb ->.
    assert (asIDBBreakpoint_eqb bp bp = true)
      by (by apply asIDBBreakpoint_eqb_eq).
    congruence. }
  destruct d as [bps act ss ca]; simpl.
  destruct (decide (bp ∈ bps)) as [Hin|Hout]; simpl.
  - assert (Hgone : bp ∉ bps ∖ {[bp]}).
    { rewrite elem_of_difference, elem_of_singleton. tauto. }
    destruct (decide (bp ∈ bps ∖ {[bp]})) as [Hin2|_]; [done|].
    simpl. rewrite toggle_off_on by done.
    split; [split; [discriminate|done]|].
    split; [split; [done|tauto]|].
    split; [|done].
    intros b Hb. apply Hne in Hb.
    rewrite elem_of_difference, elem_of_singleton. tauto.
  - assert (Hset : bp ∈ {[bp]} ∪ bps).
    { rewrite elem_of_union, elem_of_singleton. by left. }
    destruct (decide (bp ∈ {[bp]} ∪ bps)) as [_|Hout2]; [|done].
    simpl. rewrite toggle_on_off by done.
    split; [done|]. split; [done|].
    split; [|done].
    intros b Hb. apply Hne in Hb.
    rewrite elem_of_union, elem_of_singleton. tauto.
Qed.

(** Toggling ("main.as", 10) on an empty set sets it; toggling again
    clears it. *)
Example ToggleBreakpoint_main_10 :
  let d := Debugger ∅ Action_None 0 None in
  let r1 := ToggleBreakpoint d "main.as" 10 in
  let r2 := ToggleBreakpoint r1.2 "main.as" 10 in
  r1.1 = true /\ r2.1 = false /\ r2.2 = d.
Proof. vm_compute. done. Qed.

(** ** The per-instruction callback *)

(** With a breakpoint at ("main.as", 10) and no action pending, reaching
    line 10 of that section suspends and creates the cache, which takes a
    reference on the context; line 11 does not. *)
Example LineCallback_main_10 :
  let d := (ToggleBreakpoint (Debugger ∅ Action_None 0 None) "main.as" 10).2 in
  let at_line l := ScriptContext 1 true
                     [Frame "main" "void main()" "main.as" l 1 false] in
  let r10 := LineCallback {[ 1%Z := at_line 10%Z ]} 1 d in
  let r11 := LineCallback {[ 1%Z := at_line 11%Z ]} 1 d in
  cb_suspended r10 = true /\
  refCount <$> cb_contexts r10 !! 1%Z = Some 2 /\
  call_stack <$> cache (cb_debugger r10)
  = Some [CallStackEntry "void main()" "main.as" 10 1] /\
  cb_suspended r11 = false /\ cb_debugger r11 = d.
Proof. vm_compute. done. Qed.

(** C1: a firing of the per-instruction callback on the hooked context
    suspends exactly when the action is StepInto, or StepOver with the
    current depth at most the reference depth, or StepOut with the current
    depth strictly below the reference depth (never at equal depth), or no
    action is pending and a breakpoint matches the current section and line
    or the name of the function being entered. Otherwise the contexts and
    the controller are returned unchanged. *)
Theorem LineCallback_breaks_iff (st : gmap Z asIScriptContext) (p : Z)
    (o : asIScriptContext) (d : asIDBDebugger) :
  st !! p = Some o ->
  let r := LineCallback st p d in
  let depth := GetCallstackSize o in
  (cb_suspended r = true <->
     action d = Action_StepInto \/
     (action d = Action_StepOver /\ (depth <= stack_size d)%Z) \/
     (action d = Action_StepOut /\ (depth < stack_size d)%Z) \/
     (action d = Action_None /\
      exists f rest, callstack o = f :: rest /\
        (FileLocation (BreakpointLocation (frame_section f) (frame_line f))
           ∈ breakpoints d \/
         (at_entry f = true /\ Function (function_name f) ∈ breakpoints d))))
  /\
  (action d = Action_StepOut -> depth = stack_size d ->
   cb_suspended r = false) /\
  (cb_suspended r = false -> cb_debugger r = d /\ cb_contexts r = st).
Proof.
  intros Hp r depth. subst r depth. unfold LineCallback. rewrite Hp.
  assert (Hbc : break_condition d o = true <->
     action d = Action_StepInto \/
     (action d = Action_StepOver /\
      (GetCallstackSize o <= stack_size d)%Z) \/
     (action d = Action_StepOut /\ (GetCallstackSize o < stack_size d)%Z) \/
     (action d = Action_None /\
      exists f rest, callstack o = f :: rest /\
        (FileLocation (BreakpointLocation (frame_section f) (frame_line f))
           ∈ breakpoints d \/
         (at_entry f = true /\ Function (function_name f) ∈ breakpoints d)))).
  { unfold break_condition. destruct (action d) eqn:Ha.
    - destruct (callstack o) as [|f rest] eqn:Hcs.
      + split; [discriminate|].
        intros [?|[[? _]|[[? _]|[_ (f & rest & ? & _)]]]]; discriminate.
      + unfold breakpoint_matches.
        rewrite orb_true_iff, andb_true_iff, !bool_decide_eq_true. split.
        * intros H. do 3 right. split; [done|]. by exists f, rest.
        * intros [?|[[? _]|[[? _]|[_ (f' & rest' & Heq & H)]]]];
            try discriminate. by injection Heq as <- <-.
    - split; [by left|done].
    - rewrite Z.leb_le. split; [by right; left|].
      intros [?|[[_ ?]|[[? _]|[? _]]]]; done.
    - rewrite Z.ltb_lt. split; [by right; right; left|].
      intros [?|[[? _]|[[_ ?]|[? _]]]]; done. }
  assert (Hsusp : cb_suspended (DebugBreak st p d) = true).
  { unfold DebugBreak. destruct (cache d); simpl; [done|].
    by destruct (asIDBCache_new st p). }
  split; [|split].
  - destruct (break_condition d o) eqn:Hb.
    + rewrite Hsusp. by rewrite <- Hbc.
    + simpl. rewrite <- Hbc. done.
  - intros Ha Heq. unfold break_condition. rewrite Ha.
    replace (GetCallstackSize o <? stack_size d)%Z with false; [done|].
    symmetry. apply Z.ltb_ge. lia.
  - destruct (break_condition d o); [by rewrite Hsusp|done].
Qed.

Lemma LineCallback_breaks_iff_witness :
  let o := ScriptContext 1 true
             [Frame "f" "void f()" "main.as" 10 1 false;
              Frame "main" "void main()" "main.as" 3 1 false] in
  cb_suspended
    (LineCallback {[ 1%Z := o ]} 1 (Debugger ∅ Action_StepOut 2 None)) = false.
Proof.
  intros o.
  pose proof (LineCallback_breaks_iff {[ 1%Z := o ]} 1 o
                (Debugger ∅ Action_StepOut 2 None) eq_refl) as (_ & H & _).
  apply H; reflexivity.
Defined.

(** ** The reference held by a cache *)

Lemma cache_global_ctx Evaluate c g :
  ctx (cache_global Evaluate c g) = ctx c.
Proof.
  unfold cache_global, AddVarState.
  by destruct (var_states c !! global_addr g).
Qed.

Lemma CacheGlobals_ctx Evaluate gs c :
  ctx (CacheGlobals Evaluate gs c) = ctx c.
Proof.
  unfold CacheGlobals. destruct (globalsCached c); [done|]. simpl.
  revert c. induction gs as [|g gs IH]; intros c; simpl; [done|].
  by rewrite IH, cache_global_ctx.
Qed.

Lemma run_cache_op_ctx Evaluate c op :
  ctx (run_cache_op Evaluate c op) = ctx c.
Proof.
  destruct op as [id|gs|w v|]; simpl.
  - unfold AddVarState. by destruct (var_states c !! id).
  - apply CacheGlobals_ctx.
  - unfold right_click. destruct w; simpl; by case_match.
  - unfold erase_pending. by case_match.
Qed.

Lemma run_cache_ops_ctx Evaluate ops c :
  ctx (foldl (run_cache_op Evaluate) c ops) = ctx c.
Proof.
  revert c. induction ops as [|op ops IH]; intros c; simpl; [done|].
  by rewrite IH, run_cache_op_ctx.
Qed.

(** C9: a cache holds exactly one reference to its context. Construction
    takes one reference on the context; no operation on the cache changes
    which context it refers to, and none reaches the context's count;
    destruction clears the line callback and gives exactly that reference
    back, leaving every other context alone. *)
Theorem asIDBCache_holds_one_reference
    (Evaluate : asIDBCache -> asIDBVarAddr -> asIDBVarValue)
    (st : gmap Z asIScriptContext) (p : Z) (o : asIScriptContext)
    (ops : list cache_op) :
  st !! p = Some o ->
  1 <= refCount o ->
  let r := asIDBCache_new st p in
  let c := foldl (run_cache_op Evaluate) r.2 ops in
  (exists o1, r.1 !! p = Some o1 /\ refCount o1 = S (refCount o) /\
              lineCallback o1 = lineCallback o) /\
  (forall q, q <> p -> r.1 !! q = st !! q) /\
  ctx c = p /\
  asIDBCache_delete r.1 c !! p
    = Some (ScriptContext (refCount o) false (callstack o)) /\
  (forall q, q <> p -> asIDBCache_delete r.1 c !! q = st !! q).
Proof.
  intros Hp Hlive r c.
  assert (Hc : ctx c = p) by (subst c; by rewrite run_cache_ops_ctx).
  assert (Hr : r.1 !! p = Some (AddRef o)).
  { subst r. simpl. rewrite lookup_alter_eq, Hp. done. }
  assert (Hq : forall q, q <> p -> r.1 !! q = st !! q).
  { intros q Hne. subst r. simpl. by rewrite lookup_alter_ne. }
  split; [by exists (AddRef o)|]. split; [done|]. split; [done|].
  unfold asIDBCache_delete. rewrite Hc, Hr.
  unfold Release, ClearLineCallback, AddRef. simpl.
  destruct (refCount o) as [|n] eqn:Hn; [lia|].
  split.
  - by rewrite lookup_insert_eq.
  - intros q Hne. rewrite lookup_insert_ne by done. by apply Hq.
Qed.

Lemma asIDBCache_holds_one_reference_witness :
  let st : gmap Z asIScriptContext := {[ 7%Z := ScriptContext 1 true [] ]} in
  let r := asIDBCache_new st 7 in
  asIDBCache_delete r.1
    (foldl (run_cache_op (fun _ _ => asIDBVarValue_default)) r.2
           [Op_AddVarState (VarAddr 11 4096);
            Op_right_click false (VarView "x" "int" (VarAddr 11 4096));
            Op_erase_pending]) !! 7%Z
  = Some (ScriptContext 1 false []).
Proof.
  intros st r.
  pose proof (asIDBCache_holds_one_reference
                (fun _ _ => asIDBVarValue_default) st 7
                (ScriptContext 1 true [])
                [Op_AddVarState (VarAddr 11 4096);
                 Op_right_click false (VarView "x" "int" (VarAddr 11 4096));
                 Op_erase_pending]
                eq_refl (le_n 1)) as (_ & _ & _ & H & _).
  exact H.
Defined.

(** ** Evaluator dispatch *)

Lemma is_handle_strip_handle (t : Z) : is_handle (strip_handle t) = false.
Proof.
  unfold is_handle, strip_handle.
  rewrite <- Z.land_assoc.
  replace (Z.land (Z.lnot (Z.lor asTYPEID_OBJHANDLE asTYPEID_HANDLETOCONST))
                  asTYPEID_OBJHANDLE) with 0%Z by reflexivity.
  by rewrite Z.land_0_r.
Qed.

Lemma registry_key_no_qualifier (t : Z) :
  Z.land (registry_key t)
         (Z.lor asTYPEID_OBJHANDLE asTYPEID_HANDLETOCONST) = 0%Z.
Proof.
  unfold registry_key. rewrite <- Z.land_assoc.
  replace (Z.land (Z.lor asTYPEID_MASK_OBJECT asTYPEID_MASK_SEQNBR)
                  (Z.lor asTYPEID_OBJHANDLE asTYPEID_HANDLETOCONST))
    with 0%Z by reflexivity.
  by rewrite Z.land_0_r.
Qed.

Lemma registry_key_strip_handle (t : Z) :
  registry_key (strip_handle t) = registry_key t.
Proof.
  unfold registry_key, strip_handle. rewrite <- Z.land_assoc. f_equal.
Qed.

(** C5: dispatch of a submitted address. A null or uninitialised sentinel
    is resolved by its fixed evaluator whatever is registered. Otherwise a
    handle is rewritten to the concrete object it refers to before the
    lookup, the lookup keys on the type id's object and sequence-number bits
    with the handle qualifiers stripped, the evaluator found receives an
    address whose type is no handle, and that the submitted address was a
    handle survives only as the annotation. *)
Theorem GetEvaluator_dispatches_concrete (deref : Z -> Z)
    (registry : gmap Z nat) (id : asIDBVarAddr) :
  let r := GetEvaluator deref registry id in
  (is_uninit id = true -> dispatched r = Evaluator_Uninit) /\
  (is_uninit id = false -> is_null deref id = true ->
   dispatched r = Evaluator_Null) /\
  (is_uninit id || is_null deref id = true ->
   forall registry', GetEvaluator deref registry' id = r) /\
  (is_uninit id || is_null deref id = false ->
   (is_handle (typeId id) = true ->
    evaluated_id r
    = VarAddr (strip_handle (typeId id)) (deref (address id))) /\
   (is_handle (typeId id) = false -> evaluated_id r = id) /\
   is_handle (typeId (evaluated_id r)) = false /\
   address (evaluated_id r) <> 0%Z /\
   dispatched r = lookup_evaluator registry (evaluated_id r) /\
   from_handle r = is_handle (typeId id)) /\
  (forall h, dispatched r = Evaluator_Registered h ->
   is_uninit id || is_null deref id = false /\
   is_handle (typeId (evaluated_id r)) = false /\
   registry !! registry_key (typeId (evaluated_id r)) = Some h /\
   registry_key (typeId (evaluated_id r)) = registry_key (typeId id) /\
   Z.land (registry_key (typeId (evaluated_id r)))
          (Z.lor asTYPEID_OBJHANDLE asTYPEID_HANDLETOCONST) = 0%Z).
Proof.
  intros r. subst r. unfold GetEvaluator, is_null, is_uninit.
  destruct (address id =? 0)%Z eqn:Haddr; simpl.
  { repeat split; try done. }
  apply Z.eqb_neq in Haddr.
  destruct (is_handle (typeId id)) eqn:Hh; simpl.
  - destruct (deref (address id) =? 0)%Z eqn:Hd; simpl.
    { repeat split; try done. }
    apply Z.eqb_neq in Hd.
    split; [done|]. split; [done|]. split; [done|]. split.
    + intros _. split; [done|]. split; [done|].
      split; [apply is_handle_strip_handle|]. done.
    + intros h Hreg. split; [done|].
      split; [apply is_handle_strip_handle|].
      unfold lookup_evaluator in Hreg. simpl in Hreg.
      split; [|split; [apply registry_key_strip_handle
                      |apply registry_key_no_qualifier]].
      destruct (registry !! registry_key (strip_handle (typeId id)));
        [congruence|]. by case_match.
  - split; [done|]. split; [done|]. split; [done|]. split.
    + intros _. done.
    + intros h Hreg. split; [done|]. split; [done|].
      unfold lookup_evaluator in Hreg.
      split; [|split; [done|apply registry_key_no_qualifier]].
      destruct (registry !! registry_key (typeId id)); [congruence|].
      by case_match.
Qed.

Lemma GetEvaluator_dispatches_concrete_witness :
  let deref := fun a => if (a =? 4096)%Z then 8192%Z else 0%Z in
  let registry : gmap Z nat := {[ 0x04000005%Z := 3 ]} in
  GetEvaluator deref registry (VarAddr 0x44000005 4096)
  = Dispatch (Evaluator_Registered 3) (VarAddr 0x04000005 8192) true.
Proof.
  intros deref registry.
  pose proof (GetEvaluator_dispatches_concrete deref registry
                (VarAddr 0x44000005 4096)) as (_ & _ & _ & H & _).
  destruct (H eq_refl) as (Hid & _ & _ & _ & Hd & Hf).
  specialize (Hid eq_refl).
  destruct (GetEvaluator deref registry (VarAddr 0x44000005 4096))
    as [e i f]. simpl in *. subst. reflexivity.
Defined.

(** ** Caching the globals *)

Lemma cache_global_flag Evaluate c g :
  globalsCached (cache_global Evaluate c g) = globalsCached c.
Proof.
  unfold cache_global, AddVarState.
  by destruct (var_states c !! global_addr g).
Qed.

Lemma cache_global_globals Evaluate c g :
  globals (cache_global Evaluate c g)
  = globals c ++ [VarView (global_name g) (global_type g) (global_addr g)].
Proof.
  unfold cache_global, AddVarState.
  by destruct (var_states c !! global_addr g).
Qed.

Lemma cache_global_cached Evaluate c g :
  is_Some (var_states (cache_global Evaluate c g) !! global_addr g).
Proof.
  unfold cache_global, AddVarState.
  destruct (var_states c !! global_addr g) eqn:Hg; simpl.
  - by rewrite Hg.
  - rewrite lookup_alter_eq, lookup_insert_eq. by eexists.
Qed.

Lemma cache_global_keeps Evaluate c g k :
  is_Some (var_states c !! k) ->
  is_Some (var_states (cache_global Evaluate c g) !! k).
Proof.
  intros Hk. unfold cache_global, AddVarState.
  destruct (var_states c !! global_addr g) eqn:Hg; simpl; [done|].
  destruct (decide (global_addr g = k)) as [<-|Hne].
  - rewrite lookup_alter_eq, lookup_insert_eq. by eexists.
  - by rewrite lookup_alter_ne, lookup_insert_ne.
Qed.

Lemma cache_globals_fold Evaluate gs c :
  let c1 := foldl (cache_global Evaluate) c gs in
  globalsCached c1 = globalsCached c /\
  globals c1
  = globals c ++
    map (fun g => VarView (global_name g) (global_type g) (global_addr g)) gs
  /\
  (forall k, is_Some (var_states c !! k) -> is_Some (var_states c1 !! k)) /\
  (forall g, g ∈ gs -> is_Some (var_states c1 !! global_addr g)).
Proof.
  revert c. induction gs as [|g gs IH]; intros c; simpl.
  - rewrite app_nil_r. repeat split; try done. intros g Hg. by inversion Hg.
  - destruct (IH (cache_global Evaluate c g)) as (Hf & Hg & Hk & Hin).
    rewrite Hf, Hg, cache_global_flag, cache_global_globals, <- app_assoc.
    repeat split; try done.
    + intros k Hsome. by apply Hk, cache_global_keeps.
    + intros g' Hg'. apply elem_of_cons in Hg' as [->|Hg'].
      * apply Hk, cache_global_cached.
      * by apply Hin.
Qed.

(** C6: within an episode the global view list is populated once. On a
    cache whose [globalsCached] is unset, [CacheGlobals] appends one view
    per global of the module, on a state present in the address-keyed store,
    and sets the flag; any later invocation returns the cache unchanged.
    [RenderGlobals] calls into the cache only while the flag is unset: on a
    flagged cache the [CacheGlobals] it is given is never applied. *)
Theorem CacheGlobals_populates_once
    (Evaluate : asIDBCache -> asIDBVarAddr -> asIDBVarValue)
    (gs : list as_global) (c : asIDBCache) :
  globalsCached c = false ->
  let c1 := CacheGlobals Evaluate gs c in
  globalsCached c1 = true /\
  globals c1
  = globals c ++
    map (fun g => VarView (global_name g) (global_type g) (global_addr g)) gs
  /\
  (forall v, v ∈ globals c1 -> v ∈ globals c \/
                               is_Some (var_states c1 !! var v)) /\
  (forall gs', CacheGlobals Evaluate gs' c1 = c1) /\
  (forall QVC CG fuel table ui filter q,
     RenderGlobals QVC CG fuel table ui filter (RenderState c1 q)
     = RenderGlobals QVC (fun c => c) fuel table ui filter
         (RenderState c1 q)) /\
  (forall QVC CG fuel ui filter q,
     RenderGlobals QVC CG fuel false ui filter (RenderState c q)
     = Some (RenderState (CG c) q)).
Proof.
  intros Hflag c1.
  destruct (cache_globals_fold Evaluate gs c) as (Hf & Hg & Hk & Hin).
  assert (Hc1 : c1 = set_globals (foldl (cache_global Evaluate) c gs) true
                       (globals (foldl (cache_global Evaluate) c gs))).
  { subst c1. unfold CacheGlobals. by rewrite Hflag. }
  assert (Hset : globalsCached c1 = true) by (by rewrite Hc1).
  split; [done|]. split; [by rewrite Hc1|]. split; [|split; [|split]].
  - intros v Hv. rewrite Hc1 in Hv. simpl in Hv. rewrite Hg in Hv.
    apply elem_of_app in Hv as [Hv|Hv]; [by left|right].
    apply list_elem_of_fmap in Hv as (g & -> & Hgin). simpl.
    rewrite Hc1. simpl. by apply Hin.
  - intros gs'. unfold CacheGlobals. by rewrite Hset.
  - intros. unfold RenderGlobals. simpl. by rewrite Hset.
  - intros. unfold RenderGlobals. simpl. by rewrite Hflag.
Qed.

Lemma CacheGlobals_populates_once_witness :
  let ev := fun (_ : asIDBCache) (_ : asIDBVarAddr) =>
              VarValue false Expand_None "1" in
  let gs := [Global "x" "int" (VarAddr 11 4096);
             Global "globalX" "int" (VarAddr 11 4096)] in
  let c1 := CacheGlobals ev gs (asIDBCache_init 1) in
  globals c1 = [VarView "x" "int" (VarAddr 11 4096);
                VarView "globalX" "int" (VarAddr 11 4096)] /\
  CacheGlobals ev gs c1 = c1.
Proof.
  intros ev gs c1.
  pose proof (CacheGlobals_populates_once ev gs (asIDBCache_init 1) eq_refl)
    as (_ & H2 & _ & H4 & _).
  split; [exact H2 | exact (H4 gs)].
Defined.

(** ** The watch list *)

Lemma asIDBVarView_eqb_refl (v : asIDBVarView) : asIDBVarView_eqb v v = true.
Proof.
  unfold asIDBVarView_eqb. rewrite String.eqb_refl. simpl.
  by apply asIDBVarAddr_eqb_eq.
Qed.

Lemma asIDBVarView_eqb_spec (a b : asIDBVarView) :
  asIDBVarView_eqb a b = true <-> name a = name b /\ var a = var b.
Proof.
  unfold asIDBVarView_eqb.
  by rewrite andb_true_iff, String.eqb_eq, asIDBVarAddr_eqb_eq.
Qed.

Lemma std_find_le (l : list asIDBVarView) (v : asIDBVarView) :
  std_find l v <= length l.
Proof.
  induction l as [|x l IH]; simpl; [lia|].
  destruct (asIDBVarView_eqb x v); lia.
Qed.

Lemma std_find_found (l : list asIDBVarView) (v u : asIDBVarView) :
  u ∈ l -> asIDBVarView_eqb u v = true ->
  exists x, l !! std_find l v = Some x /\ asIDBVarView_eqb x v = true.
Proof.
  induction l as [|y l IH]; intros Hin Hu; [by inversion Hin|]. simpl.
  destruct (asIDBVarView_eqb y v) eqn:Hy; [by exists y|].
  apply elem_of_cons in Hin as [->|Hin]; [congruence|].
  simpl. by apply IH.
Qed.

Lemma std_find_first (l : list asIDBVarView) (v x : asIDBVarView) (j : nat) :
  j < std_find l v -> l !! j = Some x -> asIDBVarView_eqb x v = false.
Proof.
  revert j. induction l as [|y l IH]; intros j Hj Hx; simpl in *; [lia|].
  destruct (asIDBVarView_eqb y v) eqn:Hy; [lia|].
  destruct j as [|j]; simpl in Hx; [congruence|].
  apply (IH j); [lia|done].
Qed.

Lemma std_find_absent (l : list asIDBVarView) (v : asIDBVarView) :
  (forall x, x ∈ l -> asIDBVarView_eqb x v = false) ->
  std_find l v = length l.
Proof.
  induction l as [|y l IH]; intros Hall; simpl; [done|].
  rewrite (Hall y) by apply list_elem_of_here.
  f_equal. apply IH. intros x Hx. apply Hall. by apply list_elem_of_further.
Qed.

Lemma std_find_app_absent (l r : list asIDBVarView) (v : asIDBVarView) :
  (forall x, x ∈ l -> asIDBVarView_eqb x v = false) ->
  std_find (l ++ r) v = length l + std_find r v.
Proof.
  induction l as [|y l IH]; intros Hall; simpl; [done|].
  rewrite (Hall y) by apply list_elem_of_here.
  f_equal. apply IH. intros x Hx. apply Hall. by apply list_elem_of_further.
Qed.

Lemma delete_keeps_others {A} (l : list A) (i : nat) (u : A) :
  u ∈ l -> (forall x, l !! i = Some x -> x <> u) -> u ∈ delete i l.
Proof.
  revert i. induction l as [|y l IH]; intros i Hin Hne; [by inversion Hin|].
  destruct i as [|i]; simpl.
  - apply elem_of_cons in Hin as [->|Hin]; [|done].
    by destruct (Hne y).
  - apply elem_of_cons in Hin as [->|Hin]; [apply list_elem_of_here|].
    apply list_elem_of_further, IH; [done|]. intros x Hx. by apply Hne.
Qed.

Lemma right_click_var_states w v c :
  var_states (right_click w v c) = var_states c.
Proof. unfold right_click. destruct w; simpl; by case_match. Qed.

Lemma erase_pending_var_states c :
  var_states (erase_pending c) = var_states c.
Proof. unfold erase_pending. by case_match. Qed.

Lemma right_click_appends (u : asIDBVarView) (c : asIDBCache) :
  removeFromWatch c = length (watch c) ->
  right_click false u c
  = set_removeFromWatch (set_watch c (watch c ++ [u]))
                        (length (watch c ++ [u])).
Proof.
  intros Hend. unfold right_click. simpl. by rewrite Hend, Nat.eqb_refl.
Qed.

Lemma right_click_marks (u : asIDBVarView) (c : asIDBCache) :
  u ∈ watch c ->
  right_click true u c = set_removeFromWatch c (std_find (watch c) u) /\
  std_find (watch c) u < length (watch c).
Proof.
  intros Hu.
  destruct (std_find_found (watch c) u u Hu (asIDBVarView_eqb_refl u))
    as (x & Hx & _).
  apply lookup_lt_Some in Hx. split; [|done].
  unfold right_click. simpl.
  destruct (std_find (watch c) u =? length (watch c)) eqn:He; [|done].
  apply Nat.eqb_eq in He. lia.
Qed.

Lemma erase_after_click (u : asIDBVarView) (c : asIDBCache) :
  u ∈ watch c ->
  erase_pending (right_click true u c)
  = set_removeFromWatch
      (set_watch (set_removeFromWatch c (std_find (watch c) u))
                 (delete (std_find (watch c) u) (watch c)))
      (length (delete (std_find (watch c) u) (watch c))).
Proof.
  intros Hu. destruct (right_click_marks u c Hu) as [-> Hlt].
  unfold erase_pending. simpl.
  destruct (std_find (watch c) u =? length (watch c)) eqn:He; [|done].
  apply Nat.eqb_eq in He. lia.
Qed.

(** C8: with no removal pending, a right click outside the watch window
    appends a copy of the clicked view to the watch list and touches
    nothing in the address-keyed store. A right click on a view inside the
    watch window, followed by the tail of [RenderWatch], erases the first
    position whose view equals the clicked one (same name, same state) and
    nothing else; the outcome does not depend on the address-keyed store.
    Two views of one address under different names therefore coexist in the
    list, and removing one leaves the other in place. *)
Theorem watch_removal_is_by_position (c : asIDBCache)
    (v v1 v2 : asIDBVarView) :
  removeFromWatch c = length (watch c) ->
  var v1 = var v2 -> name v1 <> name v2 ->
  (* appending *)
  watch (right_click false v c) = watch c ++ [v] /\
  removeFromWatch (right_click false v c) = length (watch c ++ [v]) /\
  var_states (right_click false v c) = var_states c /\
  (* removing *)
  (v ∈ watch c ->
   let i := std_find (watch c) v in
   let c' := erase_pending (right_click true v c) in
   i < length (watch c) /\
   (exists x, watch c !! i = Some x /\ name x = name v /\ var x = var v) /\
   (forall j x, j < i -> watch c !! j = Some x ->
                asIDBVarView_eqb x v = false) /\
   watch c' = delete i (watch c) /\
   removeFromWatch c' = length (watch c') /\
   var_states c' = var_states c /\
   (forall u, u ∈ watch c -> asIDBVarView_eqb u v = false -> u ∈ watch c') /\
   (forall m, watch (erase_pending (right_click true v (set_var_states c m)))
              = watch c')) /\
  (* two names for one address *)
  let c2 := right_click false v2 (right_click false v1 c) in
  let c3 := erase_pending (right_click true v1 c2) in
  watch c2 = watch c ++ [v1; v2] /\
  v2 ∈ watch c3 /\
  ((forall x, x ∈ watch c -> asIDBVarView_eqb x v1 = false) ->
   watch c3 = watch c ++ [v2]).
Proof.
  intros Hend Hvar Hname.
  pose proof right_click_appends as Hadd.
  pose proof erase_after_click as Hdel.
  split; [by rewrite Hadd|]. split; [by rewrite Hadd|].
  split; [apply right_click_var_states|]. split.
  - intros Hv i c'.
    destruct (std_find_found (watch c) v v Hv (asIDBVarView_eqb_refl v))
      as (x & Hx & Hxv).
    assert (Hc' : watch c' = delete i (watch c)).
    { subst c'. by rewrite Hdel. }
    split; [by apply lookup_lt_Some in Hx|].
    split; [exists x; split; [done|by apply asIDBVarView_eqb_spec]|].
    split; [intros j y Hj Hy; by eapply std_find_first|].
    split; [done|]. split; [subst c'; by rewrite Hdel|].
    split; [subst c'; by rewrite erase_pending_var_states,
                                 right_click_var_states|].
    split.
    + intros u Hu Huv. rewrite Hc'. apply delete_keeps_others; [done|].
      intros y Hy ->. fold i in Hx. congruence.
    + intros m. rewrite Hc'. by rewrite Hdel.
  - intros c2 c3.
    assert (Hc2 : watch c2 = watch c ++ [v1; v2]).
    { subst c2. rewrite (Hadd v1 c Hend). rewrite Hadd by done. simpl.
      by rewrite <- app_assoc. }
    assert (Hin1 : v1 ∈ watch c2).
    { rewrite Hc2. apply elem_of_app. right. apply list_elem_of_here. }
    assert (Hin2 : v2 ∈ watch c2).
    { rewrite Hc2. apply elem_of_app. right.
      apply list_elem_of_further, list_elem_of_here. }
    assert (Hne : asIDBVarView_eqb v2 v1 = false).
    { destruct (asIDBVarView_eqb v2 v1) eqn:He; [|done].
      apply asIDBVarView_eqb_spec in He as [He _]. by destruct Hname. }
    assert (Hc3 : watch c3 = delete (std_find (watch c2) v1) (watch c2)).
    { subst c3. by rewrite Hdel. }
    split; [done|]. split.
    + rewrite Hc3. apply delete_keeps_others; [done|].
      intros y Hy ->.
      destruct (std_find_found (watch c2) v1 v1 Hin1
                  (asIDBVarView_eqb_refl v1)) as (x & Hx & Hxv).
      congruence.
    + intros Habs. rewrite Hc3, Hc2.
      rewrite std_find_app_absent by done. simpl.
      rewrite asIDBVarView_eqb_refl.
      rewrite Nat.add_0_r.
      clear. induction (watch c) as [|y l IH]; simpl; [done|].
      by rewrite IH.
Qed.

Lemma watch_removal_is_by_position_witness :
  let a := VarAddr 11 4096 in
  let c := (AddVarState a (asIDBCache_init 1)).2 in
  let c2 := right_click false (VarView "globalX" "int" a)
              (right_click false (VarView "x" "int" a) c) in
  watch c2 = [VarView "x" "int" a; VarView "globalX" "int" a] /\
  watch (erase_pending (right_click true (VarView "x" "int" a) c2))
  = [VarView "globalX" "int" a].
Proof.
  intros a c c2.
  assert (Hn : name (VarView "x" "int" a) <> name (VarView "globalX" "int" a))
    by discriminate.
  pose proof (watch_removal_is_by_position c (VarView "x" "int" a)
                (VarView "x" "int" a) (VarView "globalX" "int" a)
                eq_refl eq_refl Hn) as (_ & _ & _ & _ & H1 & _ & H3).
  split; [exact H1|]. apply H3. intros x Hx. by inversion Hx.
Defined.

(** A whole frame of the watch window: the second row is right-clicked. *)
Example RenderWatch_removes_clicked_row :
  let a := VarAddr 11 4096 in
  let c := right_click false (VarView "globalX" "int" a)
             (right_click false (VarView "x" "int" a)
                (AddVarState a (asIDBCache_init 1)).2) in
  let ui := fun path => UiItem 0 false (bool_decide (path = [1])) in
  option_map (fun s => (watch (rs_cache s), removeFromWatch (rs_cache s)))
    (RenderWatch (fun _ c => c) 4 true ui (RenderState c []))
  = Some ([VarView "x" "int" a], 1).
Proof. vm_compute. reflexivity. Qed.

(** ** Expansion of children *)

Lemma queried_once_same (s s1 : render_state) :
  var_states (rs_cache s1) = var_states (rs_cache s) ->
  rs_queried s1 = rs_queried s ->
  queried_once s -> queried_once s1.
Proof.
  intros Hv Hq [Hnd Hall]. unfold queried_once, queried_in.
  rewrite Hq, Hv. by split.
Qed.

Lemma each_child_invariant (P : render_state -> Prop) render path :
  (forall p ch s s', P s -> render p ch s = Some s' -> P s') ->
  forall cs i s s', P s -> each_child render path i cs s = Some s' -> P s'.
Proof.
  intros Hstep. induction cs as [|ch cs IH]; intros i s s' HP Hrun;
    simpl in Hrun.
  - by injection Hrun as <-.
  - destruct (render (path ++ [i]) ch s) as [s0|] eqn:Hch; [|discriminate].
    eapply IH; [|exact Hrun]. by eapply Hstep.
Qed.

Section Expansion.
Variable QVC : asIDBVarAddr -> asIDBCache -> asIDBCache.
Hypothesis QVC_marks : marks_queried QVC.
Hypothesis QVC_keeps : forall it, keeps_queried (QVC it).

Lemma expand_on_open_once var0 it s :
  var_states (rs_cache s) !! it = Some var0 ->
  queried_once s -> queried_once (expand_on_open QVC var0 it s).
Proof.
  intros Hit [Hnd Hall]. unfold expand_on_open.
  destruct (bool_decide _); [|done].
  destruct (queriedChildren var0) eqn:Hq; simpl; [done|].
  split; simpl.
  - apply NoDup_app. split; [done|]. split; [|apply NoDup_singleton].
    intros k Hk Hk'. apply list_elem_of_singleton in Hk' as ->.
    destruct (Hall _ Hk) as (st & Hst & Hflag). congruence.
  - intros k Hk. apply elem_of_app in Hk as [Hk|Hk].
    + by apply QVC_keeps, Hall.
    + apply list_elem_of_singleton in Hk as ->. apply QVC_marks.
      by rewrite Hit.
Qed.

Lemma RenderDebuggerVariable_once fuel :
  forall ui path v filter in_watch s s',
    queried_once s ->
    RenderDebuggerVariable QVC fuel ui path v filter in_watch s = Some s' ->
    queried_once s'.
Proof.
  induction fuel as [|fuel IH]; intros ui path v filter w s s' Hs Hrun;
    simpl in Hrun; [discriminate|].
  destruct (filtered_out (ui path) filter v); [by injection Hrun as <-|].
  destruct (var_states (rs_cache s) !! var v) as [var0|] eqn:Hv;
    [|discriminate].
  set (s1 := if right_clicked (ui path)
             then RenderState (right_click w v (rs_cache s)) (rs_queried s)
             else s) in Hrun.
  assert (Hv1 : var_states (rs_cache s1) = var_states (rs_cache s)).
  { subst s1. destruct (right_clicked (ui path)); [|done]. simpl.
    apply right_click_var_states. }
  assert (Hs1 : queried_once s1).
  { eapply queried_once_same; [exact Hv1| |exact Hs].
    subst s1. by destruct (right_clicked (ui path)). }
  destruct (open (ui path)); [|by injection Hrun as <-].
  assert (Hs2 : queried_once (expand_on_open QVC var0 (var v) s1)).
  { apply expand_on_open_once; [by rewrite Hv1|done]. }
  destruct (var_states (rs_cache (expand_on_open QVC var0 (var v) s1))
              !! var v) as [var1|]; [|discriminate].
  destruct (bool_decide (expandable (value var1) = Expand_Children));
    [|by injection Hrun as <-].
  eapply (each_child_invariant queried_once); [|exact Hs2|exact Hrun].
  intros p ch s0 s0' Hs0 Hch. eapply IH; [exact Hs0|exact Hch].
Qed.

Lemma rendering_once s s' :
  rendering QVC s s' -> queried_once s -> queried_once s'.
Proof.
  induction 1 as [s|s s1 s2 fuel ui path v filter w Hrun _ IH
                 |s s2 f Hf _ IH]; intros Hs.
  - done.
  - apply IH. by eapply RenderDebuggerVariable_once.
  - apply IH. destruct Hs as [Hnd Hall]. split; [done|].
    intros k Hk. simpl. apply Hf. by apply Hall.
Qed.
End Expansion.

(** C7: expansion is requested at most once per state. Whether the children
    of a state that expands to children have been queried is read from its
    [queriedChildren] flag: with the flag set the request is skipped and the
    render state is returned as it was, also for a composite whose children
    list is empty; with the flag unset the query is issued whatever the
    list holds. Provided [QueryVariableChildren] sets the flag of its target
    and resets no flag, no state is queried twice in the course of an
    episode's rendering. *)
Theorem children_queried_at_most_once
    (QVC : asIDBVarAddr -> asIDBCache -> asIDBCache) :
  marks_queried QVC ->
  (forall it, keeps_queried (QVC it)) ->
  (forall st it s,
     queriedChildren st = true -> expand_on_open QVC st it s = s) /\
  (forall st it s,
     expandable (value st) = Expand_Children -> queriedChildren st = false ->
     expand_on_open QVC st it s
     = RenderState (QVC it (rs_cache s)) (rs_queried s ++ [it])) /\
  (forall fuel ui path v filter in_watch s st,
     var_states (rs_cache s) !! var v = Some st ->
     queriedChildren st = true -> children st = [] ->
     exists s',
       RenderDebuggerVariable QVC (S fuel) ui path v filter in_watch s
       = Some s' /\
       var_states (rs_cache s') = var_states (rs_cache s) /\
       rs_queried s' = rs_queried s) /\
  (forall c s', rendering QVC (RenderState c []) s' ->
                NoDup (rs_queried s') /\
                forall k, k ∈ rs_queried s' -> queried_in (rs_cache s') k).
Proof.
  intros Hmarks Hkeeps.
  assert (Hskip : forall st it s,
            queriedChildren st = true -> expand_on_open QVC st it s = s).
  { intros st it s Hq. unfold expand_on_open. rewrite Hq. simpl.
    by destruct (bool_decide _). }
  split; [exact Hskip|]. split; [|split].
  - intros st it s He Hq. unfold expand_on_open.
    rewrite bool_decide_eq_true_2 by done. by rewrite Hq.
  - intros fuel ui path v filter w s st Hv Hq Hch. simpl.
    destruct (filtered_out (ui path) filter v); [by exists s|].
    rewrite Hv.
    set (s1 := if right_clicked (ui path)
               then RenderState (right_click w v (rs_cache s)) (rs_queried s)
               else s).
    assert (Hv1 : var_states (rs_cache s1) = var_states (rs_cache s)).
    { subst s1. destruct (right_clicked (ui path)); [|done]. simpl.
      apply right_click_var_states. }
    assert (Hq1 : rs_queried s1 = rs_queried s).
    { subst s1. by destruct (right_clicked (ui path)). }
    destruct (open (ui path)); [|by exists s1].
    rewrite Hskip by done. rewrite Hv1, Hv, Hch. simpl.
    destruct (bool_decide _); by exists s1.
  - intros c s' Hr.
    apply (rendering_once QVC Hmarks Hkeeps _ _ Hr).
    split; [apply NoDup_nil_2|]. intros k Hk. by inversion Hk.
Qed.

Lemma query_no_children_marks : marks_queried query_no_children.
Proof.
  intros it c [st Hst]. unfold queried_in, query_no_children. simpl.
  rewrite lookup_alter_eq, Hst. simpl. by eexists.
Qed.

Lemma query_no_children_keeps it : keeps_queried (query_no_children it).
Proof.
  intros c k (st & Hst & Hq). unfold queried_in, query_no_children. simpl.
  destruct (decide (it = k)) as [->|Hne].
  - rewrite lookup_alter_eq, Hst. simpl. by eexists.
  - rewrite lookup_alter_ne by done. by exists st.
Qed.

Lemma children_queried_at_most_once_witness :
  let a := VarAddr 0x04000005 8192 in
  let c := set_var_states (asIDBCache_init 1)
             {[ a := VarState (VarValue false Expand_Children "obj") None
                              false [] [] ]} in
  let ui := fun _ : list nat => UiItem 1 true false in
  let frame := RenderDebuggerVariable query_no_children 2 ui [0]
                 (VarView "o" "Obj" a) None false in
  exists s1 s2,
    frame (RenderState c []) = Some s1 /\ frame s1 = Some s2 /\
    rs_queried s2 = [a] /\ NoDup (rs_queried s2).
Proof.
  intros a c ui frame.
  destruct (frame (RenderState c [])) as [s1|] eqn:H1;
    [|vm_compute in H1; discriminate].
  destruct (frame s1) as [s2|] eqn:H2.
  - exists s1, s2. split; [done|]. split; [done|]. split.
    + vm_compute in H1. injection H1 as <-.
      vm_compute in H2. by injection H2 as <-.
    + pose proof (children_queried_at_most_once query_no_children
                    query_no_children_marks query_no_children_keeps)
        as (_ & _ & _ & Honce).
      apply (Honce c s2).
      eapply rendering_variable; [exact H1|].
      eapply rendering_variable; [exact H2|]. apply rendering_done.
  - vm_compute in H1. injection H1 as <-. vm_compute in H2. discriminate.
Defined.

(** ** The buffer of a temporary *)

Lemma fresh_base_above (h : heap) :
  (1 <= fresh_base h)%Z /\
  forall a, a ∈ dom (cells h) ∪ debugger_owned h -> (a < fresh_base h)%Z.
Proof.
  unfold fresh_base.
  apply (set_fold_ind_L
           (fun r (X : gset Z) => (1 <= r)%Z /\ forall a, a ∈ X -> (a < r)%Z)).
  - split; [lia|]. intros a Ha. by apply not_elem_of_empty in Ha.
  - intros x X r _ [Hr Hall]. split; [lia|].
    intros a Ha. apply elem_of_union in Ha as [Ha|Ha].
    + apply elem_of_singleton in Ha as ->. lia.
    + specialize (Hall a Ha). lia.
Qed.

Lemma elem_of_block (base : Z) (n : nat) (i : Z) :
  i ∈ block base n <-> (base <= i < base + Z.of_nat n)%Z.
Proof. unfold block. by rewrite elem_of_list_to_set, elem_of_seqZ. Qed.

Lemma store_lookup_outside (bs : list Byte.byte) :
  forall m a i, (i < a \/ a + Z.of_nat (length bs) <= i)%Z ->
                store m a bs !! i = m !! i.
Proof.
  induction bs as [|b bs IH]; intros m a i Hi; simpl; [done|].
  rewrite IH by (simpl in Hi; lia).
  apply lookup_insert_ne. simpl in Hi. lia.
Qed.

Lemma load_ext (n : nat) :
  forall m1 m2 a,
    (forall i, (a <= i < a + Z.of_nat n)%Z -> m1 !! i = m2 !! i) ->
    load m1 a n = load m2 a n.
Proof.
  induction n as [|n IH]; intros m1 m2 a Hext; simpl; [done|].
  rewrite (Hext a) by lia. rewrite (IH m1 m2 (a + 1)%Z); [done|].
  intros i Hi. apply Hext. lia.
Qed.

Lemma load_Some (n : nat) :
  forall m a bs, load m a n = Some bs ->
    length bs = n /\
    forall i, (a <= i < a + Z.of_nat n)%Z -> is_Some (m !! i).
Proof.
  induction n as [|n IH]; intros m a bs Hl; simpl in Hl.
  - injection Hl as <-. split; [done|]. intros i Hi. lia.
  - destruct (m !! a) as [b|] eqn:Ha; [|discriminate].
    destruct (load m (a + 1) n) as [r|] eqn:Hr; [|discriminate].
    injection Hl as <-. destruct (IH _ _ _ Hr) as [Hlen Hdom].
    split; [simpl; by rewrite Hlen|].
    intros i Hi. destruct (decide (i = a)) as [->|Hne]; [by rewrite Ha|].
    apply Hdom. lia.
Qed.

Lemma load_store (bs : list Byte.byte) :
  forall m a, load (store m a bs) a (length bs) = Some bs.
Proof.
  induction bs as [|b bs IH]; intros m a; simpl; [done|].
  rewrite store_lookup_outside by lia.
  by rewrite lookup_insert_eq, IH.
Qed.

Lemma runtime_steps_frame (ops : list runtime_op) :
  forall h,
    Forall (fun op => runtime_target op ∉ debugger_owned h) ops ->
    debugger_owned (foldl runtime_step h ops) = debugger_owned h /\
    forall i, i ∈ debugger_owned h ->
              cells (foldl runtime_step h ops) !! i = cells h !! i.
Proof.
  induction ops as [|op ops IH]; intros h Hall; simpl; [done|].
  apply Forall_cons in Hall as [Hop Hall].
  assert (Hown : debugger_owned (runtime_step h op) = debugger_owned h).
  { by destruct op. }
  destruct (IH (runtime_step h op)) as [Ho Hc]; [by rewrite Hown|].
  split; [by rewrite Ho|].
  intros i Hi. rewrite Hc; [|by rewrite Hown].
  destruct op as [a b|a]; simpl in *.
  - apply lookup_insert_ne. by intros ->.
  - apply lookup_delete_ne. by intros ->.
Qed.

(** C4: a state captured from a temporary owns a private buffer. The
    capture succeeds whenever the temporary is readable; the state's
    [stackMemory] is the buffer, the address reported for the state is the
    buffer's, every byte of the buffer lies in an allocation of the
    debugger's and outside what was the runtime's memory, and the buffer
    reads back the captured bytes, also after the runtime has overwritten
    or released any of its own memory. *)
Theorem temporary_buffer_is_private (tid ptr : Z) (size : nat) (h : heap)
    (c : asIDBCache) (bs : list Byte.byte) :
  load (cells h) ptr size = Some bs ->
  exists id h2 c2 st,
    capture_temporary tid ptr size h c = Some (id, h2, c2) /\
    var_states c2 !! id = Some st /\
    stackMemory st = Some (address id) /\
    typeId id = tid /\
    address id <> 0%Z /\
    address id ∈ debugger_owned h2 /\
    (forall i, (address id <= i < address id + Z.of_nat size)%Z ->
               (i ∈ debugger_owned h2) /\ (i ∉ dom (cells h)) /\
               (i ∉ debugger_owned h)) /\
    load (cells h2) (address id) size = Some bs /\
    (forall ops,
       Forall (fun op => runtime_target op ∉ debugger_owned h2) ops ->
       load (cells (foldl runtime_step h2 ops)) (address id) size = Some bs).
Proof.
  intros Hload.
  destruct (fresh_base_above h) as [Hpos Habove].
  destruct (load_Some _ _ _ _ Hload) as [Hlen Hdom].
  set (base := fresh_base h) in *.
  set (h1 := Heap (store (cells h) base (replicate size Byte.x00))
                  (debugger_owned h ∪ block base (Nat.max 1 size))).
  set (h2 := Heap (store (cells h1) base bs) (debugger_owned h1)).
  assert (Hsrc : load (cells h1) ptr size = Some bs).
  { rewrite <- Hload. apply load_ext. intros i Hi. simpl.
    apply store_lookup_outside. left.
    apply Habove, elem_of_union. left. by apply elem_of_dom, Hdom. }
  assert (Hcap : capture_temporary tid ptr size h c
                 = Some (VarAddr tid base, h2,
                     set_var_states (AddVarState (VarAddr tid base) c).2
                       (alter (fun s => set_stackMemory s (Some base))
                          (VarAddr tid base)
                          (var_states (AddVarState (VarAddr tid base) c).2)))).
  { unfold capture_temporary, make_unique, memcpy. fold base. fold h1.
    rewrite Hsrc. fold h2.
    pose proof (AddVarState_iterator (VarAddr tid base) c) as Hit.
    destruct (AddVarState (VarAddr tid base) c) as [[it ex] c1].
    simpl in *. by subst it. }
  assert (Hst : is_Some (var_states (AddVarState (VarAddr tid base) c).2
                           !! VarAddr tid base)).
  { unfold AddVarState.
    destruct (var_states c !! VarAddr tid base) eqn:Hc; simpl.
    - by rewrite Hc.
    - rewrite lookup_insert_eq. by eexists. }
  destruct Hst as [st0 Hst0].
  assert (Hblock : forall i, (base <= i < base + Z.of_nat size)%Z ->
                             i ∈ debugger_owned h2).
  { intros i Hi. simpl. apply elem_of_union. right.
    apply elem_of_block. lia. }
  assert (Hbuf : load (cells h2) base size = Some bs).
  { simpl. rewrite <- Hlen. apply load_store. }
  eexists (VarAddr tid base), h2, _, (set_stackMemory st0 (Some base)).
  split; [exact Hcap|]. simpl.
  split; [by rewrite lookup_alter_eq, Hst0|].
  split; [done|]. split; [done|]. split; [lia|]. split.
  { apply elem_of_union. right. apply elem_of_block. lia. }
  split.
  { intros i Hi. split; [by apply Hblock|].
    split; intros Hin;
      assert (i < base)%Z by (apply Habove, elem_of_union; tauto); lia. }
  split; [exact Hbuf|].
  intros ops Hops.
  destruct (runtime_steps_frame ops h2 Hops) as [_ Hframe].
  rewrite <- Hbuf. apply load_ext. intros i Hi.
  apply Hframe. by apply Hblock.
Qed.

Lemma temporary_buffer_is_private_witness :
  let h := Heap {[ 100%Z := Byte.x2a; 101%Z := Byte.x07 ]} ∅ in
  let moved_on := [Runtime_write 100 Byte.xff; Runtime_free 101] in
  exists id h2 c2,
    capture_temporary 11 100 2 h (asIDBCache_init 1) = Some (id, h2, c2) /\
    address id = 102%Z /\
    load (cells (foldl runtime_step h2 moved_on)) 100 2 = None /\
    load (cells (foldl runtime_step h2 moved_on)) (address id) 2
    = Some [Byte.x2a; Byte.x07].
Proof.
  intros h moved_on.
  destruct (temporary_buffer_is_private 11 100 2 h (asIDBCache_init 1)
              [Byte.x2a; Byte.x07] eq_refl)
    as (id & h2 & c2 & st & Hcap & _ & _ & _ & _ & _ & _ & _ & Hops).
  exists id, h2, c2. split; [exact Hcap|].
  specialize (Hops moved_on).
  vm_compute in Hcap. injection Hcap as <- <- <-.
  split; [reflexivity|]. split; [reflexivity|].
  apply Hops. repeat constructor; apply (bool_decide_unpack _); reflexivity.
Defined.

(** ** Whole frames *)

Lemma rendering_trans QVC s1 s2 s3 :
  rendering QVC s1 s2 -> rendering QVC s2 s3 -> rendering QVC s1 s3.
Proof.
  induction 1 as [s|s sa sb fuel ui path v filter w Hrun _ IH
                 |s sb f Hf _ IH]; intros H23.
  - done.
  - eapply rendering_variable; [exact Hrun|]. by apply IH.
  - eapply rendering_other; [exact Hf|]. by apply IH.
Qed.

Lemma render_rows_rendering QVC fuel :
  forall f ui filter in_watch n s s',
    render_rows QVC fuel f ui filter in_watch n s = Some s' ->
    rendering QVC s s'.
Proof.
  induction fuel as [|fuel IH]; intros f ui filter w n s s' Hrun;
    simpl in Hrun; [discriminate|].
  destruct (f (rs_cache s) !! n) as [global|];
    [|injection Hrun as <-; apply rendering_done].
  destruct (RenderDebuggerVariable QVC fuel ui [n] global filter w s)
    as [s1|] eqn:Hrow; [|discriminate].
  eapply rendering_variable; [exact Hrow|]. by eapply IH.
Qed.

Lemma erase_pending_keeps_queried : keeps_queried erase_pending.
Proof.
  intros c k. unfold queried_in. by rewrite erase_pending_var_states.
Qed.

Lemma RenderWatch_rendering QVC fuel table ui s s' :
  RenderWatch QVC fuel table ui s = Some s' -> rendering QVC s s'.
Proof.
  unfold RenderWatch. destruct table;
    [|intros [= <-]; apply rendering_done].
  destruct (render_rows QVC fuel watch ui None true 0 s) as [s1|] eqn:Hrows;
    [|discriminate].
  intros [= <-]. eapply rendering_trans.
  - by eapply render_rows_rendering.
  - eapply rendering_other; [apply erase_pending_keeps_queried|].
    apply rendering_done.
Qed.

Lemma RenderGlobals_rendering QVC CG fuel table ui filter s s' :
  keeps_queried CG ->
  RenderGlobals QVC CG fuel table ui filter s = Some s' ->
  rendering QVC s s'.
Proof.
  intros HCG. unfold RenderGlobals.
  set (gate := fun c => if negb (globalsCached c) then CG c else c).
  assert (Hgate : keeps_queried gate).
  { intros c k Hk. unfold gate. destruct (negb _); [by apply HCG|done]. }
  change (if negb (globalsCached (rs_cache s)) then CG (rs_cache s)
          else rs_cache s) with (gate (rs_cache s)).
  intros Hrun. eapply rendering_other; [exact Hgate|].
  destruct table.
  - by eapply render_rows_rendering.
  - injection Hrun as <-. apply rendering_done.
Qed.

Lemma RenderLocals_rendering QVC CL fuel table ui filter key s s' :
  keeps_queried (CL key) ->
  RenderLocals QVC CL fuel table ui filter key s = Some s' ->
  rendering QVC s s'.
Proof.
  intros HCL. unfold RenderLocals.
  set (gate := fun c => match locals c !! key with
                        | None => CL key c
                        | Some _ => c
                        end).
  assert (Hgate : keeps_queried gate).
  { intros c k Hk. unfold gate. destruct (locals c !! key);
      [done|by apply HCL]. }
  change (match locals (rs_cache s) !! key with
          | None => CL key (rs_cache s)
          | Some _ => rs_cache s
          end) with (gate (rs_cache s)).
  intros Hrun. eapply rendering_other; [exact Hgate|].
  destruct (locals (gate (rs_cache s)) !! key); [|discriminate].
  destruct table.
  - by eapply render_rows_rendering.
  - injection Hrun as <-. apply rendering_done.
Qed.

(** A frame of the watch window in which every tree node is closed and
    the row at position [i] is right-clicked. *)
Section WatchFrame.
Variable QVC : asIDBVarAddr -> asIDBCache -> asIDBCache.
Variable ui : list nat -> ui_item.
Variable i : nat.
Variable v : asIDBVarView.
Hypothesis ui_closed : forall path, open (ui path) = false.
Hypothesis ui_click :
  forall path, right_clicked (ui path) = bool_decide (path = [i]).

Lemma render_rows_unfold fuel f filter w n s :
  render_rows QVC (S fuel) f ui filter w n s
  = match f (rs_cache s) !! n with
    | None => Some s
    | Some global =>
        match RenderDebuggerVariable QVC fuel ui [n] global filter w s with
        | Some s' => render_rows QVC fuel f ui filter w (S n) s'
        | None => None
        end
    end.
Proof. reflexivity. Qed.

Lemma closed_row fuel n u c q :
  is_Some (var_states c !! var u) ->
  RenderDebuggerVariable QVC (S fuel) ui [n] u None true (RenderState c q)
  = Some (RenderState (if bool_decide (n = i) then right_click true u c
                       else c) q).
Proof.
  intros [st Hst]. simpl. unfold filtered_out. rewrite andb_false_r.
  rewrite Hst, ui_closed, ui_click.
  destruct (decide (n = i)) as [->|Hne].
  - by rewrite !bool_decide_eq_true_2.
  - rewrite !bool_decide_eq_false_2; [done|done|]. by intros [= ->].
Qed.

Lemma clicked_rows fuel :
  forall n c q,
    watch c !! i = Some v ->
    (forall u, u ∈ watch c -> is_Some (var_states c !! var u)) ->
    length (watch c) - n < fuel ->
    render_rows QVC fuel watch ui None true n (RenderState c q)
    = Some (RenderState (if bool_decide (n <= i) then right_click true v c
                         else c) q).
Proof.
  induction fuel as [|fuel IH]; intros n c q Hi Hall Hfuel; [lia|].
  assert (Hlen : i < length (watch c)) by by eapply lookup_lt_Some.
  rewrite render_rows_unfold. simpl.
  destruct (watch c !! n) as [u|] eqn:Hn.
  - assert (Hnlt : n < length (watch c)) by by eapply lookup_lt_Some.
    destruct fuel as [|fuel']; [lia|].
    rewrite closed_row by (apply Hall; by eapply list_elem_of_lookup_2).
    destruct (decide (n = i)) as [->|Hne].
    + rewrite bool_decide_eq_true_2 by done.
      assert (u = v) by congruence. subst u.
      assert (Hvin : v ∈ watch c) by by eapply list_elem_of_lookup_2.
      destruct (right_click_marks v c Hvin) as [Hrc _].
      rewrite IH.
      * rewrite bool_decide_eq_false_2 by lia.
        by rewrite bool_decide_eq_true_2 by lia.
      * by rewrite Hrc.
      * rewrite Hrc. simpl. exact Hall.
      * rewrite Hrc. simpl. lia.
    + rewrite bool_decide_eq_false_2 by done.
      rewrite IH; [|done|done|lia].
      destruct (decide (n <= i)).
      * by rewrite !bool_decide_eq_true_2 by lia.
      * by rewrite !bool_decide_eq_false_2 by lia.
  - apply lookup_ge_None in Hn.
    by rewrite bool_decide_eq_false_2 by lia.
Qed.

(** X8: a whole frame of the watch window. With every tree node closed
    and the row at position [i] right-clicked, [RenderWatch] returns, given
    fuel beyond the number of rows and a state behind every row; the cache
    it leaves is the one after the click on that row and the erasure, and
    its watch list is the old one without the first entry equal to the
    clicked view. *)
Lemma RenderWatch_clicked_frame fuel c q :
  watch c !! i = Some v ->
  (forall u, u ∈ watch c -> is_Some (var_states c !! var u)) ->
  length (watch c) < fuel ->
  RenderWatch QVC fuel true ui (RenderState c q)
  = Some (RenderState (erase_pending (right_click true v c)) q) /\
  watch (erase_pending (right_click true v c))
  = delete (std_find (watch c) v) (watch c).
Proof.
  intros Hi Hall Hfuel. unfold RenderWatch.
  rewrite clicked_rows by (done || lia).
  rewrite bool_decide_eq_true_2 by lia. split; [done|].
  rewrite erase_after_click; [done|]. by eapply list_elem_of_lookup_2.
Qed.
End WatchFrame.

(** * Further properties of the code *)

(** ** The address-keyed store under repeated insertion *)

Lemma set_var_states_same (c : asIDBCache) : set_var_states c (var_states c) = c.
Proof. by destruct c. Qed.

Lemma AddVarState_shape (id : asIDBVarAddr) (c : asIDBCache) :
  (AddVarState id c).2 = set_var_states c (var_states (AddVarState id c).2).
Proof.
  unfold AddVarState. destruct (var_states c !! id); simpl; [|done].
  by rewrite set_var_states_same.
Qed.

Lemma AddVarState_all_shape (ids : list asIDBVarAddr) :
  forall c, AddVarState_all ids c
            = set_var_states c (var_states (AddVarState_all ids c)).
Proof.
  induction ids as [|id ids IH]; intros c; simpl.
  - by rewrite set_var_states_same.
  - change (foldl _ (AddVarState id c).2 ids)
      with (AddVarState_all ids (AddVarState id c).2).
    rewrite IH at 1. by rewrite AddVarState_shape at 1.
Qed.

Lemma AddVarState_all_lookup (ids : list asIDBVarAddr) :
  forall c k,
    var_states (AddVarState_all ids c) !! k
    = match var_states c !! k with
      | Some s => Some s
      | None => if bool_decide (k ∈ ids) then Some asIDBVarState_default
                else None
      end.
Proof.
  induction ids as [|id ids IH]; intros c k.
  - simpl. by destruct (var_states c !! k).
  - change (AddVarState_all (id :: ids) c)
      with (AddVarState_all ids (AddVarState id c).2).
    rewrite IH. unfold AddVarState.
    destruct (var_states c !! id) eqn:Hid; simpl.
    + destruct (var_states c !! k) eqn:Hk; [done|].
      assert (k <> id) by congruence.
      destruct (decide (k ∈ ids)).
      * rewrite !bool_decide_eq_true_2; [done| |done].
        by apply list_elem_of_further.
      * rewrite !bool_decide_eq_false_2; [done| |done].
        rewrite elem_of_cons. tauto.
    + destruct (decide (k = id)) as [->|Hne].
      * rewrite lookup_insert_eq, Hid.
        rewrite bool_decide_eq_true_2; [done|]. apply list_elem_of_here.
      * rewrite lookup_insert_ne by done.
        destruct (var_states c !! k); [done|].
        destruct (decide (k ∈ ids)).
        -- rewrite !bool_decide_eq_true_2; [done| |done].
           by apply list_elem_of_further.
        -- rewrite !bool_decide_eq_false_2; [done| |done].
           rewrite elem_of_cons. tauto.
Qed.

(** X1: a run of [AddVarState] calls only ever adds. Every state present
    before is still there, unchanged; every requested address that was
    missing now has a value-initialised state; no other address appears; and
    no member of the cache other than [var_states] is touched. *)
Theorem AddVarState_all_only_adds (ids : list asIDBVarAddr) (c : asIDBCache) :
  let c' := AddVarState_all ids c in
  (forall k s, var_states c !! k = Some s -> var_states c' !! k = Some s) /\
  (forall k, k ∈ ids -> var_states c !! k = None ->
             var_states c' !! k = Some asIDBVarState_default) /\
  (forall k, k ∉ ids -> var_states c' !! k = var_states c !! k) /\
  dom (var_states c') = dom (var_states c) ∪ list_to_set ids /\
  c' = set_var_states c (var_states c').
Proof.
  intros c'. subst c'.
  split; [|split; [|split; [|split]]].
  - intros k s Hk. by rewrite AddVarState_all_lookup, Hk.
  - intros k Hin Hk. rewrite AddVarState_all_lookup, Hk.
    by rewrite bool_decide_eq_true_2.
  - intros k Hout. rewrite AddVarState_all_lookup.
    destruct (var_states c !! k); [done|].
    by rewrite bool_decide_eq_false_2.
  - apply set_eq. intros k.
    rewrite elem_of_union, !elem_of_dom, elem_of_list_to_set.
    rewrite AddVarState_all_lookup.
    destruct (var_states c !! k) eqn:Hk.
    + split; [left|]; by eexists.
    + destruct (decide (k ∈ ids)).
      * rewrite bool_decide_eq_true_2 by done. split; [by right|by eexists].
      * rewrite bool_decide_eq_false_2 by done.
        split; [by intros [? ?]|]. intros [[? ?]|?]; done.
  - apply AddVarState_all_shape.
Qed.

(** ** The context while a cache exists *)

Lemma Release_at_iter (p : Z) (o : asIScriptContext) (k : nat) :
  forall st, st !! p = Some o -> k < refCount o ->
    Nat.iter k (Release_at p) st !! p
    = Some (ScriptContext (refCount o - k) (lineCallback o) (callstack o)).
Proof.
  induction k as [|k IH]; intros st Hp Hk; simpl.
  - rewrite Hp, Nat.sub_0_r. by destruct o.
  - unfold Release_at at 1. rewrite IH by (done || lia).
    unfold Release. simpl.
    destruct (refCount o - k) as [|[|n]] eqn:Hn; [lia|lia|].
    rewrite lookup_insert_eq. do 2 f_equal. lia.
Qed.

(** X2: a cache keeps its context alive. Once a cache is constructed on a
    live context, the other holders may give back every reference they had
    and the context is still in the store, with its call stack; destroying
    the cache then destroys the context if the cache held the last
    reference, and otherwise leaves it with the remaining count and no line
    callback. *)
Theorem asIDBCache_keeps_context_alive (st : gmap Z asIScriptContext)
    (p : Z) (o : asIScriptContext) (k : nat) :
  st !! p = Some o ->
  1 <= refCount o ->
  k <= refCount o ->
  let r := asIDBCache_new st p in
  let st' := Nat.iter k (Release_at p) r.1 in
  st' !! p = Some (ScriptContext (S (refCount o) - k) (lineCallback o)
                                 (callstack o)) /\
  (k < refCount o ->
   asIDBCache_delete st' r.2 !! p
   = Some (ScriptContext (refCount o - k) false (callstack o))) /\
  (k = refCount o -> asIDBCache_delete st' r.2 !! p = None).
Proof.
  intros Hp Hlive Hk r st'.
  assert (Hr : r.1 !! p = Some (AddRef o)).
  { subst r. simpl. by rewrite lookup_alter_eq, Hp. }
  assert (Hst' : st' !! p = Some (ScriptContext (S (refCount o) - k)
                                    (lineCallback o) (callstack o))).
  { subst st'. rewrite (Release_at_iter p (AddRef o)); [done|done|].
    simpl. lia. }
  split; [exact Hst'|].
  unfold asIDBCache_delete. simpl. rewrite Hst'.
  unfold Release, ClearLineCallback. simpl. split.
  - intros Hlt. destruct (S (refCount o) - k) as [|[|n]] eqn:Hn; [lia|lia|].
    rewrite lookup_insert_eq. do 2 f_equal. lia.
  - intros ->. replace (S (refCount o) - refCount o) with 1 by lia.
    by rewrite lookup_delete_eq.
Qed.

Lemma asIDBCache_keeps_context_alive_witness :
  let st : gmap Z asIScriptContext := {[ 7%Z := ScriptContext 2 true [] ]} in
  let r := asIDBCache_new st 7 in
  let st' := Nat.iter 2 (Release_at 7) r.1 in
  st' !! 7%Z = Some (ScriptContext 1 true []) /\
  asIDBCache_delete st' r.2 !! 7%Z = None.
Proof.
  intros st r st'.
  pose proof (asIDBCache_keeps_context_alive st 7 (ScriptContext 2 true []) 2
                eq_refl (le_S _ _ (le_n 1)) (le_n 2)) as (H1 & _ & H3).
  split; [exact H1 | exact (H3 eq_refl)].
Defined.

(** ** Keys and hashes *)

(** X3: two local keys are equal exactly when their kinds are equal and
    their offsets agree modulo 256; in particular offsets within 0..255
    are never confused. *)
Theorem asIDBLocalKey_eqb_iff (o1 o2 : Z) (k1 k2 : asIDBLocalType) :
  (asIDBLocalKey_eqb (asIDBLocalKey_new o1 k1) (asIDBLocalKey_new o2 k2)
   = true
   <-> k1 = k2 /\ ((o1 - o2) mod 256 = 0)%Z) /\
  ((0 <= o1 < 256)%Z -> (0 <= o2 < 256)%Z ->
   asIDBLocalKey_new o1 k1 = asIDBLocalKey_new o2 k2 ->
   o1 = o2 /\ k1 = k2).
Proof.
  assert (Hmod : to_uint8 o1 = to_uint8 o2 <-> ((o1 - o2) mod 256 = 0)%Z).
  { unfold to_uint8. split; [|apply to_uint8_congr].
    intros Heq. rewrite Zminus_mod, Heq, Z.sub_diag. done. }
  split.
  - rewrite asIDBLocalKey_eqb_eq. unfold asIDBLocalKey_new. split.
    + intros [= Ho ->]. split; [done|]. by apply Hmod.
    + intros [-> Ho]. f_equal. by apply Hmod.
  - intros H1 H2 [= Ho ->]. split; [|done].
    unfold to_uint8 in Ho. by rewrite !Z.mod_small in Ho by lia.
Qed.

(** X4: the alternative of a breakpoint does not reach its hash. The tag
    [0x40000000] is narrowed to [uint8_t] before it is hashed, so both
    alternatives start from the seed [hash<uint8_t>(0)]: a file location
    and a function name whose own hashes agree collide. *)
Theorem hash_asIDBBreakpoint_ignores_alternative
    (size_bits : Z) (hash_int hash_uint8 : Z -> Z) (hash_string : string -> Z)
    (loc : asIDBBreakpointLocation) (f : string) :
  let hash_loc :=
    hash_asIDBBreakpointLocation size_bits hash_int hash_string in
  let hash_bp :=
    hash_asIDBBreakpoint size_bits hash_int hash_uint8 hash_string in
  hash_bp (FileLocation loc)
  = asIDBHashCombine size_bits hash_loc (hash_uint8 0%Z) loc /\
  hash_bp (Function f)
  = asIDBHashCombine size_bits hash_string (hash_uint8 0%Z) f /\
  (hash_loc loc = hash_string f ->
   hash_bp (FileLocation loc) = hash_bp (Function f)).
Proof.
  intros hash_loc hash_bp. subst hash_bp. unfold hash_asIDBBreakpoint.
  change (to_uint8 0x40000000) with 0%Z. change (to_uint8 0%Z) with 0%Z.
  split; [done|]. split; [done|].
  intros Heq. unfold asIDBHashCombine. fold hash_loc. by rewrite Heq.
Qed.

(** ** Right clicks and the watch list *)

Lemma right_click_shape w v c :
  right_click w v c
  = set_removeFromWatch (set_watch c (watch (right_click w v c)))
                        (removeFromWatch (right_click w v c)).
Proof.
  unfold right_click. destruct w; simpl; case_match; by destruct c.
Qed.

Lemma erase_pending_shape c :
  erase_pending c
  = set_removeFromWatch (set_watch c (watch (erase_pending c)))
                        (removeFromWatch (erase_pending c)).
Proof. unfold erase_pending. case_match; by destruct c. Qed.

(** X5: what a right click can do. It changes nothing of the cache but
    [watch] and [removeFromWatch], and it never removes or reorders an
    entry. Inside the watch window it marks the first entry equal to the
    clicked view, replacing any earlier mark; a view that equals no entry,
    such as a child row of a watched variable, is appended instead. Outside
    the watch window it is ignored while a removal is pending. *)
Theorem right_click_cases (w : bool) (v : asIDBVarView) (c : asIDBCache) :
  let c' := right_click w v c in
  c' = set_removeFromWatch (set_watch c (watch c')) (removeFromWatch c') /\
  (watch c' = watch c \/ watch c' = watch c ++ [v]) /\
  (w = true -> (exists x, x ∈ watch c /\ asIDBVarView_eqb x v = true) ->
   watch c' = watch c /\ removeFromWatch c' = std_find (watch c) v /\
   removeFromWatch c' < length (watch c)) /\
  (w = true -> (forall x, x ∈ watch c -> asIDBVarView_eqb x v = false) ->
   watch c' = watch c ++ [v] /\ removeFromWatch c' = length (watch c')) /\
  (w = false -> removeFromWatch c <> length (watch c) -> c' = c).
Proof.
  intros c'. split; [apply right_click_shape|]. split; [|split; [|split]].
  - subst c'. unfold right_click. destruct w; simpl; case_match; simpl; auto.
  - intros -> (x & Hx & Hxv).
    destruct (std_find_found _ _ _ Hx Hxv) as (y & Hy & _).
    apply lookup_lt_Some in Hy.
    subst c'. unfold right_click. simpl.
    destruct (std_find (watch c) v =? length (watch c)) eqn:He; [|done].
    apply Nat.eqb_eq in He. lia.
  - intros -> Habs. subst c'. unfold right_click. simpl.
    rewrite (std_find_absent _ _ Habs), Nat.eqb_refl. done.
  - intros -> Hpending. subst c'. unfold right_click. simpl.
    destruct (removeFromWatch c =? length (watch c)) eqn:He; [|done].
    by apply Nat.eqb_eq in He.
Qed.

Lemma run_watch_op_valid (c : asIDBCache) (op : watch_op) :
  removeFromWatch c <= length (watch c) ->
  let c' := run_watch_op c op in
  removeFromWatch c' <= length (watch c') /\
  length (watch c') <= S (length (watch c)) /\
  length (watch c) <= S (length (watch c')) /\
  var_states c' = var_states c.
Proof.
  intros Hinv c'. subst c'. destruct op as [w v|]; simpl.
  - split; [|split; [|split; [|apply right_click_var_states]]];
      unfold right_click; pose proof (std_find_le (watch c) v);
      destruct w; simpl; case_match; simpl; rewrite ?length_app; simpl; lia.
  - unfold erase_pending.
    destruct (removeFromWatch c =? length (watch c)) eqn:He; simpl.
    + repeat split; lia.
    + apply Nat.eqb_neq in He.
      rewrite length_delete by (apply lookup_lt_is_Some; lia).
      repeat split; lia.
Qed.

(** X6: the removal mark stays inside the list. From a cache whose
    [removeFromWatch] is a position of [watch] or its end, any sequence of
    right clicks and [RenderWatch] tails leaves it so, never touches the
    address-keyed store, and changes the length of the list by at most one
    per step; after a tail nothing is pending. *)
Theorem watch_mark_stays_valid (ops : list watch_op) (c : asIDBCache) :
  removeFromWatch c <= length (watch c) ->
  let c' := foldl run_watch_op c ops in
  removeFromWatch c' <= length (watch c') /\
  var_states c' = var_states c /\
  length (watch c') <= length (watch c) + length ops /\
  length (watch c) <= length (watch c') + length ops /\
  removeFromWatch (run_watch_op c' Watch_tail)
  = length (watch (run_watch_op c' Watch_tail)).
Proof.
  revert c. induction ops as [|op ops IH]; intros c Hinv; simpl.
  - repeat split; try lia. unfold erase_pending.
    destruct (removeFromWatch c =? length (watch c)) eqn:He; simpl; [|done].
    by apply Nat.eqb_eq in He.
  - destruct (run_watch_op_valid c op Hinv) as (H1 & H2 & H3 & H4).
    destruct (IH _ H1) as (I1 & I2 & I3 & I4 & I5).
    split; [done|]. split; [by rewrite I2|]. split; [lia|]. split; [lia|done].
Qed.

Lemma watch_mark_stays_valid_witness :
  let v := VarView "x" "int" (VarAddr 11 4096) in
  let c := foldl run_watch_op (asIDBCache_init 1)
             [Watch_click false v; Watch_click true v; Watch_click false v;
              Watch_tail; Watch_click false v] in
  removeFromWatch c <= length (watch c) /\ watch c = [v].
Proof.
  intros v c.
  pose proof (watch_mark_stays_valid
                [Watch_click false v; Watch_click true v; Watch_click false v;
                 Watch_tail; Watch_click false v]
                (asIDBCache_init 1) (le_n 0)) as (H & _).
  split; [exact H | reflexivity].
Defined.





Lemma RenderWatch_clicked_frame_witness :
  let a := VarAddr 11 4096 in
  let x := VarView "x" "int" a in
  let g := VarView "globalX" "int" a in
  let c := set_removeFromWatch
             (set_watch (AddVarState a (asIDBCache_init 1)).2 [x; g]) 2 in
  let ui := fun path : list nat => UiItem 0 false (bool_decide (path = [1])) in
  option_map (fun s => watch (rs_cache s))
    (RenderWatch (fun _ c => c) 3 true ui (RenderState c []))
  = Some [x].
Proof.
  intros a x g c ui.
  assert (Hall : forall u, u ∈ watch c -> is_Some (var_states c !! var u)).
  { intros u Hu. simpl in Hu.
    apply elem_of_cons in Hu as [->|Hu]; [by eexists|].
    apply list_elem_of_singleton in Hu as ->. by eexists. }
  pose proof (RenderWatch_clicked_frame (fun _ c => c) ui 1 g
                (fun _ => eq_refl) (fun _ => eq_refl) 3 c [] eq_refl Hall
                (le_n 3)) as [Hrun Hwatch].
  rewrite Hrun. cbv [option_map rs_cache]. by rewrite Hwatch.
Defined.

(** A frame in which nothing is clicked and every tree node is closed. *)
Section IdleFrame.
Variable QVC : asIDBVarAddr -> asIDBCache -> asIDBCache.
Variable ui : list nat -> ui_item.
Hypothesis ui_closed : forall path, open (ui path) = false.
Hypothesis ui_no_click : forall path, right_clicked (ui path) = false.

Lemma idle_row fuel path u filter w s :
  is_Some (var_states (rs_cache s) !! var u) ->
  RenderDebuggerVariable QVC (S fuel) ui path u filter w s = Some s.
Proof.
  intros [st Hst]. simpl.
  destruct (filtered_out (ui path) filter u); [done|].
  by rewrite Hst, ui_closed, ui_no_click.
Qed.

Lemma idle_rows (f : asIDBCache -> list asIDBVarView) filter w s fuel :
  forall n,
    (forall u, u ∈ f (rs_cache s) ->
               is_Some (var_states (rs_cache s) !! var u)) ->
    length (f (rs_cache s)) - n < fuel ->
    render_rows QVC fuel f ui filter w n s = Some s.
Proof.
  induction fuel as [|fuel IH]; intros n Hall Hfuel; [lia|]. simpl.
  destruct (f (rs_cache s) !! n) as [u|] eqn:Hn; [|done].
  assert (n < length (f (rs_cache s))) by by eapply lookup_lt_Some.
  destruct fuel as [|fuel']; [lia|].
  rewrite idle_row by (apply Hall; by eapply list_elem_of_lookup_2).
  apply IH; [done|lia].
Qed.

(** X9: an idle frame changes nothing. When nothing is clicked and every
    node is closed, each of the three tables returns its input: the globals
    once they are cached, the locals of a key that is cached, and the watch
    list when no removal is pending. Each needs a state behind every row
    and fuel beyond the number of rows. *)
Theorem idle_frame_is_identity CG CL (fuel : nat) (table : bool)
    (filter : string) (key : asIDBLocalKey) (s : render_state) :
  let c := rs_cache s in
  let cached (l : list asIDBVarView) :=
    forall u, u ∈ l -> is_Some (var_states c !! var u) in
  (globalsCached c = true -> cached (globals c) ->
   length (globals c) < fuel ->
   RenderGlobals QVC CG fuel table ui filter s = Some s) /\
  (forall rows, locals c !! key = Some rows -> cached rows ->
   length rows < fuel ->
   RenderLocals QVC CL fuel table ui filter key s = Some s) /\
  (removeFromWatch c = length (watch c) -> cached (watch c) ->
   length (watch c) < fuel ->
   RenderWatch QVC fuel table ui s = Some s).
Proof.
  intros c cached. subst c cached. destruct s as [c q]. simpl.
  split; [|split].
  - intros Hflag Hall Hfuel. unfold RenderGlobals. simpl. rewrite Hflag.
    simpl. destruct table; [|done].
    apply idle_rows; simpl; [done|lia].
  - intros rows Hrows Hall Hfuel. unfold RenderLocals. simpl.
    rewrite Hrows. simpl. rewrite Hrows. destruct table; [|done].
    apply idle_rows; simpl; rewrite Hrows; simpl; [done|lia].
  - intros Hend Hall Hfuel. unfold RenderWatch. destruct table; [|done].
    rewrite idle_rows by (simpl; done || lia). simpl.
    unfold erase_pending. by rewrite Hend, Nat.eqb_refl.
Qed.
End IdleFrame.

Lemma idle_frame_is_identity_witness :
  let a := VarAddr 11 4096 in
  let x := VarView "x" "int" a in
  let c := set_globals
             (set_removeFromWatch
                (set_watch (AddVarState a (asIDBCache_init 1)).2 [x; x]) 2)
             true [x] in
  let ui := fun _ : list nat => UiItem 0 false false in
  RenderGlobals (fun _ c => c) (fun c => c) 2 true ui EmptyString
    (RenderState c [])
  = Some (RenderState c []) /\
  RenderWatch (fun _ c => c) 3 true ui (RenderState c [])
  = Some (RenderState c []).
Proof.
  intros a x c ui.
  assert (Hx : is_Some (var_states c !! var x)) by by eexists.
  pose proof (idle_frame_is_identity (fun _ c => c) ui (fun _ => eq_refl)
                (fun _ => eq_refl) (fun c => c) (fun _ c => c)) as H.
  split.
  - destruct (H 2 true EmptyString (asIDBLocalKey_new 0 Variable_)
                (RenderState c [])) as (Hg & _).
    apply Hg; [done| |simpl; lia].
    intros u Hu. simpl in Hu. by apply list_elem_of_singleton in Hu as ->.
  - destruct (H 3 true EmptyString (asIDBLocalKey_new 0 Variable_)
                (RenderState c [])) as (_ & _ & Hw).
    apply Hw; [done| |simpl; lia].
    intros u Hu. simpl in Hu.
    apply elem_of_cons in Hu as [->|Hu]; [done|].
    by apply list_elem_of_singleton in Hu as ->.
Defined.

(** ** What rendering reaches *)

(** X10: the filter of a table. A row is skipped exactly when its stored
    open state is zero, the filter is a non-empty string, and the filter
    occurs at no position of the row's name; a null or empty filter skips
    nothing. *)
Theorem filtered_out_iff (u : ui_item) (filter : option string)
    (v : asIDBVarView) :
  (filtered_out u filter v = true <->
   opened u = 0%Z /\
   exists f, filter = Some f /\ f <> EmptyString /\
             forall m, substring m (String.length f) (name v) <> f) /\
  filtered_out u None v = false /\
  filtered_out u (Some EmptyString) v = false.
Proof.
  split; [|split].
  - unfold filtered_out. destruct filter as [f|].
    + rewrite !andb_true_iff, Z.eqb_eq, negb_true_iff, String.eqb_neq.
      split.
      * intros (Ho & Hf & Hidx). split; [done|]. exists f.
        split; [done|]. split; [done|]. intros m.
        destruct (String.index 0 f (name v)) eqn:Hi; [done|].
        apply (index_correct3 0 m f (name v) Hi Hf). lia.
      * intros (Ho & f' & [= <-] & Hf & Hno). split; [done|].
        split; [done|].
        destruct (String.index 0 f (name v)) as [m|] eqn:Hi; [|done].
        destruct (Hno m). by eapply index_correct1.
    + rewrite andb_false_r. split; [done|].
      by intros (_ & f & ? & _).
  - unfold filtered_out. by rewrite andb_false_r.
  - unfold filtered_out. simpl. by rewrite andb_false_r.
Qed.

(** X11: [RenderLocals] caches on demand. With the key already in the
    locals map, the [CacheLocals] it is given is never applied; with the
    key missing it is applied once before anything is drawn, and if that
    leaves the key missing the function has no defined result. *)
Theorem RenderLocals_caches_on_demand QVC CL (fuel : nat) (table : bool)
    (ui : list nat -> ui_item) (filter : string) (key : asIDBLocalKey)
    (s : render_state) :
  (is_Some (locals (rs_cache s) !! key) ->
   RenderLocals QVC CL fuel table ui filter key s
   = RenderLocals QVC (fun _ c => c) fuel table ui filter key s) /\
  (locals (rs_cache s) !! key = None ->
   RenderLocals QVC CL fuel table ui filter key s
   = RenderLocals QVC (fun _ c => c) fuel table ui filter key
       (RenderState (CL key (rs_cache s)) (rs_queried s))) /\
  (locals (rs_cache s) !! key = None ->
   locals (CL key (rs_cache s)) !! key = None ->
   RenderLocals QVC CL fuel table ui filter key s = None) /\
  (locals (rs_cache s) !! key = None ->
   is_Some (locals (CL key (rs_cache s)) !! key) ->
   RenderLocals QVC CL fuel false ui filter key s
   = Some (RenderState (CL key (rs_cache s)) (rs_queried s))).
Proof.
  unfold RenderLocals. simpl. split; [|split; [|split]].
  - intros [rows Hrows]. by rewrite Hrows.
  - intros Hnone. rewrite Hnone.
    destruct (locals (CL key (rs_cache s)) !! key) eqn:Hafter;
      by rewrite ?Hafter.
  - intros Hnone Hstill. by rewrite Hnone, Hstill.
  - intros Hnone [rows Hrows]. by rewrite Hnone, Hrows.
Qed.

(** X12: only states that expand to children are ever expanded. For a view
    whose state expands to nothing, to a value or to entries, one unit of
    fuel suffices: [RenderDebuggerVariable] returns without a call of
    [QueryVariableChildren] and without descending, and what it leaves is
    the input, or the input after the right click. *)
Theorem only_children_are_expanded QVC (fuel : nat)
    (ui : list nat -> ui_item) (path : list nat) (v : asIDBVarView)
    (filter : option string) (in_watch : bool) (s : render_state)
    (st : asIDBVarState) :
  var_states (rs_cache s) !! var v = Some st ->
  expandable (value st) <> Expand_Children ->
  exists s',
    RenderDebuggerVariable QVC (S fuel) ui path v filter in_watch s = Some s' /\
    rs_queried s' = rs_queried s /\
    var_states (rs_cache s') = var_states (rs_cache s) /\
    (rs_cache s' = rs_cache s \/
     rs_cache s' = right_click in_watch v (rs_cache s)).
Proof.
  intros Hst Hexp. simpl.
  destruct (filtered_out (ui path) filter v); [exists s; auto|].
  rewrite Hst.
  set (s1 := if right_clicked (ui path)
             then RenderState (right_click in_watch v (rs_cache s))
                              (rs_queried s)
             else s).
  assert (Hs1 : rs_queried s1 = rs_queried s /\
                var_states (rs_cache s1) = var_states (rs_cache s) /\
                (rs_cache s1 = rs_cache s \/
                 rs_cache s1 = right_click in_watch v (rs_cache s))).
  { subst s1. destruct (right_clicked (ui path)); simpl; [|auto].
    rewrite right_click_var_states. auto. }
  assert (Hskip : expand_on_open QVC st (var v) s1 = s1).
  { unfold expand_on_open. by rewrite bool_decide_eq_false_2. }
  destruct (open (ui path)); [|by exists s1].
  rewrite Hskip. destruct Hs1 as (Hq & Hv & Hc). rewrite Hv, Hst.
  rewrite bool_decide_eq_false_2 by done. by exists s1.
Qed.

Lemma only_children_are_expanded_witness :
  let a := VarAddr 11 4096 in
  let c := set_var_states (asIDBCache_init 1)
             {[ a := VarState (VarValue false Expand_Entries "list") None
                              false [] [] ]} in
  exists s',
    RenderDebuggerVariable (fun _ _ => asIDBCache_init 0) 1
      (fun _ => UiItem 1 true false) [0] (VarView "l" "List" a) None false
      (RenderState c []) = Some s' /\
    rs_queried s' = [] /\ rs_cache s' = c.
Proof.
  intros a c.
  destruct (only_children_are_expanded (fun _ _ => asIDBCache_init 0) 0
              (fun _ => UiItem 1 true false) [0] (VarView "l" "List" a)
              None false (RenderState c [])
              (VarState (VarValue false Expand_Entries "list") None false
                        [] [])
              eq_refl) as (s' & Hrun & Hq & _ & Hc).
  { discriminate. }
  exists s'. split; [exact Hrun|]. split; [exact Hq|].
  vm_compute in Hrun. by injection Hrun as <-.
Defined.

(** ** Frames without a query *)

Lemma only_watch_differs_refl c : only_watch_differs c c.
Proof. unfold only_watch_differs. by destruct c. Qed.

Lemma only_watch_differs_trans c1 c2 c3 :
  only_watch_differs c1 c2 -> only_watch_differs c2 c3 ->
  only_watch_differs c1 c3.
Proof.
  unfold only_watch_differs. intros H12 H23.
  rewrite H23 at 1. rewrite H12. by destruct c1.
Qed.

Lemma extends_quietly_refl s : extends_quietly s s.
Proof.
  exists []. split; [by rewrite app_nil_r|].
  intros _. apply only_watch_differs_refl.
Qed.

Lemma extends_quietly_trans s1 s2 s3 :
  extends_quietly s1 s2 -> extends_quietly s2 s3 -> extends_quietly s1 s3.
Proof.
  intros (l1 & Hq1 & Hc1) (l2 & Hq2 & Hc2). exists (l1 ++ l2).
  split; [by rewrite Hq2, Hq1, app_assoc|].
  intros Hnil. apply app_eq_nil in Hnil as [-> ->].
  eapply only_watch_differs_trans; eauto.
Qed.

Lemma RenderDebuggerVariable_quiet QVC fuel :
  forall ui path v filter in_watch s s',
    RenderDebuggerVariable QVC fuel ui path v filter in_watch s = Some s' ->
    extends_quietly s s'.
Proof.
  induction fuel as [|fuel IH]; intros ui path v filter w s s' Hrun;
    simpl in Hrun; [discriminate|].
  destruct (filtered_out (ui path) filter v);
    [injection Hrun as <-; apply extends_quietly_refl|].
  destruct (var_states (rs_cache s) !! var v) as [var0|]; [|discriminate].
  set (s1 := if right_clicked (ui path)
             then RenderState (right_click w v (rs_cache s)) (rs_queried s)
             else s) in Hrun.
  assert (Hs1 : extends_quietly s s1).
  { subst s1. destruct (right_clicked (ui path));
      [|apply extends_quietly_refl].
    exists []. split; [by rewrite app_nil_r|]. intros _. simpl.
    apply right_click_shape. }
  destruct (open (ui path)); [|by injection Hrun as <-].
  assert (Hs2 : extends_quietly s (expand_on_open QVC var0 (var v) s1)).
  { eapply extends_quietly_trans; [exact Hs1|]. unfold expand_on_open.
    destruct (bool_decide _); [|apply extends_quietly_refl].
    destruct (negb _); [|apply extends_quietly_refl].
    exists [var v]. split; [done|]. discriminate. }
  destruct (var_states (rs_cache (expand_on_open QVC var0 (var v) s1))
              !! var v) as [var1|]; [|discriminate].
  destruct (bool_decide (expandable (value var1) = Expand_Children));
    [|by injection Hrun as <-].
  eapply (each_child_invariant (extends_quietly s)); [|exact Hs2|exact Hrun].
  intros p ch sa sb Hsa Hch. eapply extends_quietly_trans; [exact Hsa|].
  eapply IH. exact Hch.
Qed.

Lemma render_rows_quiet QVC fuel :
  forall f ui filter in_watch n s s',
    render_rows QVC fuel f ui filter in_watch n s = Some s' ->
    extends_quietly s s'.
Proof.
  induction fuel as [|fuel IH]; intros f ui filter w n s s' Hrun;
    simpl in Hrun; [discriminate|].
  destruct (f (rs_cache s) !! n) as [global|];
    [|injection Hrun as <-; apply extends_quietly_refl].
  destruct (RenderDebuggerVariable QVC fuel ui [n] global filter w s)
    as [s1|] eqn:Hrow; [|discriminate].
  eapply extends_quietly_trans.
  - eapply RenderDebuggerVariable_quiet. exact Hrow.
  - eapply IH. exact Hrun.
Qed.

(** X13: rendering reaches the cache through two doors only. A call of
    [RenderDebuggerVariable] that returns, and likewise a frame of
    [RenderWatch], only ever extends the log of [QueryVariableChildren]
    calls; and if it extended it by nothing, then whatever
    [QueryVariableChildren] is, the cache it leaves differs from the one it
    was given in [watch] and [removeFromWatch] at most. *)
Theorem rendering_without_query_touches_watch_only QVC (fuel : nat)
    (ui : list nat -> ui_item) (path : list nat) (v : asIDBVarView)
    (filter : option string) (in_watch table : bool) (s s' : render_state) :
  RenderDebuggerVariable QVC fuel ui path v filter in_watch s = Some s' \/
  RenderWatch QVC fuel table ui s = Some s' ->
  exists l,
    rs_queried s' = rs_queried s ++ l /\
    (l = [] ->
     rs_cache s'
     = set_removeFromWatch (set_watch (rs_cache s) (watch (rs_cache s')))
                           (removeFromWatch (rs_cache s'))).
Proof.
  intros Hrun. change (extends_quietly s s').
  destruct Hrun as [Hrun|Hrun].
  - eapply RenderDebuggerVariable_quiet. exact Hrun.
  - unfold RenderWatch in Hrun. destruct table;
      [|injection Hrun as <-; apply extends_quietly_refl].
    destruct (render_rows QVC fuel watch ui None true 0 s) as [s1|] eqn:Hrows;
      [|discriminate].
    injection Hrun as <-.
    eapply extends_quietly_trans;
      [eapply render_rows_quiet; exact Hrows|].
    exists []. split; [by rewrite app_nil_r|]. intros _. simpl.
    apply erase_pending_shape.
Qed.

Lemma rendering_without_query_touches_watch_only_witness :
  let a := VarAddr 11 4096 in
  let x := VarView "x" "int" a in
  let c := (AddVarState a (asIDBCache_init 1)).2 in
  let QVC := fun (_ : asIDBVarAddr) (_ : asIDBCache) => asIDBCache_init 0 in
  exists s',
    RenderDebuggerVariable QVC 1 (fun _ => UiItem 1 true true) [0] x None
                           false (RenderState c []) = Some s' /\
    rs_cache s' = set_removeFromWatch (set_watch c [x]) 1.
Proof.
  intros a x c QVC.
  destruct (RenderDebuggerVariable QVC 1 (fun _ => UiItem 1 true true) [0] x
              None false (RenderState c [])) as [s'|] eqn:Hrun;
    [|vm_compute in Hrun; discriminate].
  exists s'. split; [done|].
  destruct (rendering_without_query_touches_watch_only QVC 1
              (fun _ => UiItem 1 true true) [0] x None false false
              (RenderState c []) s' (or_introl Hrun)) as (l & Hl & Hc).
  vm_compute in Hrun. injection Hrun as <-. reflexivity.
Defined.

(** ** Whole windows and the expansion flag *)

(** X14: whole windows query no state twice. If [QueryVariableChildren]
    sets the flag of its target and neither it nor [CacheGlobals] nor
    [CacheLocals] resets a flag, then a frame of any of the three tables,
    entered with every logged state flagged and logged once, leaves it so:
    over the frames of an episode each state is queried at most once. *)
Theorem windows_query_at_most_once QVC CG CL (fuel : nat) (table : bool)
    (ui : list nat -> ui_item) (filter : string) (key : asIDBLocalKey)
    (s s' : render_state) :
  marks_queried QVC ->
  (forall it, keeps_queried (QVC it)) ->
  keeps_queried CG ->
  keeps_queried (CL key) ->
  queried_once s ->
  RenderGlobals QVC CG fuel table ui filter s = Some s' \/
  RenderLocals QVC CL fuel table ui filter key s = Some s' \/
  RenderWatch QVC fuel table ui s = Some s' ->
  NoDup (rs_queried s') /\
  (forall k, k ∈ rs_queried s' -> queried_in (rs_cache s') k).
Proof.
  intros Hmarks Hkeeps HCG HCL Hs Hrun.
  eapply (rendering_once QVC Hmarks Hkeeps s s'); [|exact Hs].
  destruct Hrun as [Hrun|[Hrun|Hrun]].
  - eapply RenderGlobals_rendering; [exact HCG|exact Hrun].
  - eapply RenderLocals_rendering; [exact HCL|exact Hrun].
  - eapply RenderWatch_rendering. exact Hrun.
Qed.

Lemma windows_query_at_most_once_witness :
  let a := VarAddr 0x04000005 8192 in
  let o := VarView "o" "Obj" a in
  let c := set_globals
             (set_var_states (asIDBCache_init 1)
                {[ a := VarState (VarValue false Expand_Children "obj") None
                                 false [] [] ]})
             true [o; o] in
  let ui := fun _ : list nat => UiItem 1 true false in
  exists s',
    RenderGlobals query_no_children (fun c => c) 3 true ui EmptyString
                  (RenderState c []) = Some s' /\
    rs_queried s' = [a] /\ NoDup (rs_queried s').
Proof.
  intros a o c ui.
  destruct (RenderGlobals query_no_children (fun c => c) 3 true ui
              EmptyString (RenderState c [])) as [s'|] eqn:Hrun;
    [|vm_compute in Hrun; discriminate].
  exists s'. split; [done|].
  assert (Hid : keeps_queried (fun c : asIDBCache => c)) by by intros ? ?.
  assert (Hcl : keeps_queried
                  ((fun (_ : asIDBLocalKey) (c : asIDBCache) => c)
                     (asIDBLocalKey_new 0 Variable_))) by by intros ? ?.
  assert (Hs : queried_once (RenderState c [])).
  { split; [apply NoDup_nil_2|]. intros k Hk. by inversion Hk. }
  destruct (windows_query_at_most_once query_no_children (fun c => c)
              (fun _ c => c) 3 true ui EmptyString
              (asIDBLocalKey_new 0 Variable_) (RenderState c []) s'
              query_no_children_marks query_no_children_keeps Hid Hcl Hs
              (or_introl Hrun)) as [Hnd _].
  split; [|exact Hnd].
  vm_compute in Hrun. by injection Hrun as <-.
Defined.

(** ** The frame loop *)

Lemma call_stack_loop_spec (clicked : nat -> bool)
    (entries : list asIDBCallStackEntry) :
  forall n0 sel reset,
    let r := call_stack_loop clicked n0 entries sel reset in
    ((forall m, n0 <= m < n0 + length entries -> clicked m = false) ->
     r = (sel, reset)) /\
    (forall n, n0 <= n < n0 + length entries -> clicked n = true ->
               (forall m, n < m < n0 + length entries -> clicked m = false) ->
               r = (Z.of_nat n, true)).
Proof.
  induction entries as [|e entries IH]; intros n0 sel reset; simpl.
  - split; [done|]. intros n Hn. lia.
  - destruct (clicked n0) eqn:Hc.
    + destruct (IH (S n0) (Z.of_nat n0) true) as [IH1 IH2]. split.
      * intros Hnone. rewrite Hnone in Hc by lia. done.
      * intros n Hn Hcl Hlast. destruct (decide (n = n0)) as [->|Hne].
        -- apply IH1. intros m Hm. apply Hlast. lia.
        -- apply IH2; [lia|done|]. intros m Hm. apply Hlast. lia.
    + destruct (IH (S n0) sel reset) as [IH1 IH2]. split.
      * intros Hnone. apply IH1. intros m Hm. apply Hnone. lia.
      * intros n Hn Hcl Hlast. destruct (decide (n = n0)) as [->|Hne];
          [congruence|].
        apply IH2; [lia|done|]. intros m Hm. apply Hlast. lia.
Qed.

(** X15: selecting in the Call Stack window. If no entry reports a click
    the selection is kept and no reset of the text is asked for; otherwise
    the last entry that reports one becomes the selection, whatever was
    selected before, and the reset is asked for. *)
Theorem call_stack_loop_last_click_wins (clicked : nat -> bool)
    (entries : list asIDBCallStackEntry) (selected : Z) :
  let r := call_stack_loop clicked 0 entries selected false in
  ((forall m, m < length entries -> clicked m = false) ->
   r = (selected, false)) /\
  (forall n, n < length entries -> clicked n = true ->
             (forall m, n < m < length entries -> clicked m = false) ->
             r = (Z.of_nat n, true)) /\
  (r.2 = true <-> exists n, n < length entries /\ clicked n = true).
Proof.
  intros r. subst r.
  destruct (call_stack_loop_spec clicked entries 0 selected false)
    as [H1 H2].
  split; [|split].
  - intros Hnone. apply H1. intros m Hm. apply Hnone. lia.
  - intros n Hn Hc Hlast. apply H2; [lia|done|].
    intros m Hm. apply Hlast. lia.
  - split.
    + intros Hr.
      destruct (decide (Exists (fun m => clicked m = true)
                               (seq 0 (length entries)))) as [Hex|Hno].
      * apply Exists_exists in Hex as (n & Hn & Hc).
        apply elem_of_seq in Hn. exists n. split; [lia|done].
      * rewrite H1 in Hr; [done|]. intros m Hm.
        destruct (clicked m) eqn:Hc; [|done]. destruct Hno.
        apply Exists_exists. exists m. split; [|done].
        apply elem_of_seq. lia.
    + intros (n & Hn & Hc).
      assert (Hlast : exists k, k < length entries /\ clicked k = true /\
                forall m, k < m < length entries -> clicked m = false).
      { clear H1 H2. induction entries as [|e es IH] using rev_ind;
          [simpl in Hn; lia|].
        rewrite length_app in *. simpl in *.
        destruct (clicked (length es)) eqn:Hl.
        - exists (length es). split; [lia|]. split; [done|]. intros m Hm. lia.
        - destruct IH as (k & Hk & Hck & Hkl).
          { destruct (decide (n = length es)) as [->|]; [congruence|lia]. }
          exists k. split; [lia|]. split; [done|]. intros m Hm.
          destruct (decide (m = length es)) as [->|]; [done|].
          apply Hkl. lia. }
      destruct Hlast as (k & Hk & Hck & Hkl).
      rewrite (H2 k); [done|lia|done|]. intros m Hm. apply Hkl. lia.
Qed.

Lemma set_cache_same (d : asIDBDebugger) (c : asIDBCache) :
  cache d = Some c -> set_cache d (Some c) = d.
Proof. intros <-. by destruct d. Qed.

Lemma set_debugger_same (fe : asIDBImGuiFrontend) :
  set_debugger fe (debugger fe) = fe.
Proof. by destruct fe. Qed.

Section FrameLoopFacts.
Variable QVC : asIDBVarAddr -> asIDBCache -> asIDBCache.
Variable CG : asIDBCache -> asIDBCache.
Variable CL : asIDBLocalKey -> asIDBCache -> asIDBCache.
Variable FetchSource : as_frame -> string.
Variable Resume StepInto StepOver StepOut :
  gmap Z asIScriptContext * asIDBDebugger ->
  gmap Z asIScriptContext * asIDBDebugger.

Local Abbreviation Render_ :=
  (Render QVC CG CL FetchSource Resume StepInto StepOver StepOut).
Local Abbreviation menu_action_ :=
  (menu_action Resume StepInto StepOver StepOut).
Local Abbreviation key_action_ :=
  (key_action Resume StepInto StepOver StepOut).

Lemma menu_action_none inp dw : no_menu_click inp -> menu_action_ inp dw = dw.
Proof.
  unfold menu_action. intros [->|(-> & -> & -> & ->)]; [done|].
  by destruct (in_menu_bar inp).
Qed.

Lemma key_action_none inp dw : no_key_pressed inp -> key_action_ inp dw = dw.
Proof. unfold key_action. by intros (-> & -> & ->). Qed.

Lemma cache_windows_partial fuel inp selected s :
  cache_windows QVC CG CL fuel false inp selected s = Some s.
Proof.
  unfold cache_windows, locals_window. by rewrite !andb_false_r.
Qed.

(** X16: a partial update. When [Render] is called with [full] unset, or
    the backend defers the frame, and no menu item or key is used, the frame
    returns [true] and leaves the contexts, the debugger with its cache, the
    selection and the log as they were: only the dock set-up flag is cleared
    and the pending cursor update advances. If the dock space window is
    shown, though, the cache is dereferenced all the same, and without one
    the frame has no defined result. *)
Theorem Render_partial_update (fuel : nat) (full : bool) (inp : frame_input)
    (w : frontend_world) :
  in_backend inp <> FrameResult_Exit ->
  full = false \/ in_backend inp = FrameResult_Defer ->
  no_menu_click inp ->
  no_key_pressed inp ->
  let fe := w_frontend w in
  let left :=
    World (w_contexts w)
      (cursor_countdown
         (Frontend (debugger fe) (selected_stack_entry fe) (update_row fe)
                   (update_cursor fe) (resetOpenStates fe) false (editor fe)))
      (w_queried w) in
  (in_show inp = false \/ is_Some (cache (debugger fe)) ->
   Render_ fuel full inp w = Some (true, left)) /\
  (in_show inp = true -> cache (debugger fe) = None ->
   Render_ fuel full inp w = None).
Proof.
  intros Hexit Hpartial Hmenu Hkeys fe left.
  assert (Hshown : forall c, cache (debugger fe) = Some c ->
            set_cache (debugger fe) (Some c) = debugger fe).
  { intros c Hc. by apply set_cache_same. }
  unfold Render.
  destruct (in_backend inp) eqn:Hb; [done| |].
  - rewrite menu_action_none by done. rewrite !andb_false_r. split.
    + intros Hs. destruct (in_show inp) eqn:Hshow.
      * destruct Hs as [?|[c Hc]]; [done|]. fold fe. rewrite Hc.
        rewrite cache_windows_partial. simpl. rewrite Hshown by done.
        rewrite key_action_none by done. by rewrite set_debugger_same.
      * simpl. rewrite key_action_none by done. by rewrite set_debugger_same.
    + intros -> Hnone. fold fe. by rewrite Hnone.
  - destruct Hpartial as [->|?]; [|done].
    rewrite menu_action_none by done. rewrite !andb_false_r. split.
    + intros Hs. destruct (in_show inp) eqn:Hshow.
      * destruct Hs as [?|[c Hc]]; [done|]. fold fe. rewrite Hc.
        rewrite cache_windows_partial. simpl. rewrite Hshown by done.
        rewrite key_action_none by done. by rewrite set_debugger_same.
      * simpl. rewrite key_action_none by done. by rewrite set_debugger_same.
    + intros -> Hnone. fold fe. by rewrite Hnone.
Qed.
Lemma call_stack_loop_none clicked entries selected :
  (forall n, clicked n = false) ->
  call_stack_loop clicked 0 entries selected false = (selected, false).
Proof.
  intros Hnone.
  destruct (call_stack_loop_spec clicked entries 0 selected false) as [H _].
  apply H. intros m _. apply Hnone.
Qed.

Lemma cursor_countdown_fields fe :
  let fe' := cursor_countdown fe in
  debugger fe' = debugger fe /\
  selected_stack_entry fe' = selected_stack_entry fe /\
  update_row fe' = update_row fe /\
  update_cursor fe'
  = (if (update_cursor fe =? 0)%Z then 0 else update_cursor fe - 1)%Z /\
  editor fe'
  = editor fe ++ (if (update_cursor fe =? 1)%Z
                  then cursor_update (update_row fe) else []).
Proof.
  unfold cursor_countdown.
  destruct (update_cursor fe =? 0)%Z eqn:H0; simpl.
  - apply Z.eqb_eq in H0. rewrite H0. simpl. by rewrite app_nil_r.
  - destruct (update_cursor fe - 1 =? 0)%Z eqn:H1.
    + apply Z.eqb_eq in H1.
      replace (update_cursor fe =? 1)%Z with true
        by (symmetry; apply Z.eqb_eq; lia). done.
    + apply Z.eqb_neq in H1.
      replace (update_cursor fe =? 1)%Z with false
        by (symmetry; apply Z.eqb_neq; lia). by rewrite app_nil_r.
Qed.

(** A frame that returns and in which no call stack entry is clicked. *)
Lemma Render_without_selection fuel full inp w b w' :
  Render_ fuel full inp w = Some (b, w') ->
  in_backend inp <> FrameResult_Exit ->
  (forall n, in_stack_clicked inp n = false) ->
  let fe := w_frontend w in
  let fe' := w_frontend w' in
  b = true /\
  selected_stack_entry fe' = selected_stack_entry fe /\
  update_row fe' = update_row fe /\
  update_cursor fe'
  = (if (update_cursor fe =? 0)%Z then 0 else update_cursor fe - 1)%Z /\
  exists drawn,
    (drawn = [] \/ drawn = [Editor_Render]) /\
    editor fe'
    = editor fe ++ drawn ++
      (if (update_cursor fe =? 1)%Z then cursor_update (update_row fe)
       else []).
Proof.
  intros Hrun Hexit Hnone fe fe'. subst fe'. unfold Render in Hrun.
  set (full' := match in_backend inp with
                | FrameResult_Defer => false
                | _ => full
                end) in *.
  assert (Hrun' :
    match
      (if in_show inp then
         let '(st1, d1) := menu_action_ inp (w_contexts w, debugger fe) in
         match cache d1 with
         | None => None
         | Some c =>
             let '(selected, resetText) :=
               if in_begin_call_stack inp && full'
               then call_stack_loop (in_stack_clicked inp) 0 (call_stack c)
                                    (selected_stack_entry fe) false
               else (selected_stack_entry fe, false) in
             match cache_windows QVC CG CL fuel full' inp selected
                     (RenderState c (w_queried w)) with
             | None => None
             | Some s =>
                 Some (st1, set_cache d1 (Some (rs_cache s)), selected,
                       resetText, rs_queried s,
                       if in_begin_source inp && full'
                       then editor fe ++ [Editor_Render] else editor fe)
             end
         end
       else Some (w_contexts w, debugger fe, selected_stack_entry fe, false,
                  w_queried w, editor fe))
    with
    | None => None
    | Some (st1, d1, selected, resetText, queried, ed) =>
        let w1 := World st1
                    (Frontend d1 selected (update_row fe) (update_cursor fe)
                              (resetOpenStates fe) false ed)
                    queried in
        match (if resetText
               then ChangeScript FetchSource w1
               else Some (World st1 (cursor_countdown (w_frontend w1))
                                queried)) with
        | None => None
        | Some w2 =>
            let '(st3, d3) :=
              key_action_ inp (w_contexts w2, debugger (w_frontend w2)) in
            Some (true,
                  World st3 (set_debugger (w_frontend w2) d3) (w_queried w2))
        end
    end = Some (b, w')).
  { destruct (in_backend inp); [done|exact Hrun|exact Hrun]. }
  clear Hrun.
  assert (Hsel : exists st1 d1 queried drawn,
            (drawn = [] \/ drawn = [Editor_Render]) /\
            (let w2 := World st1
                         (cursor_countdown
                            (Frontend d1 (selected_stack_entry fe)
                               (update_row fe) (update_cursor fe)
                               (resetOpenStates fe) false
                               (editor fe ++ drawn))) queried in
             let '(st3, d3) :=
               key_action_ inp (w_contexts w2, debugger (w_frontend w2)) in
             Some (true,
                   World st3 (set_debugger (w_frontend w2) d3)
                         (w_queried w2))) = Some (b, w')).
  { destruct (in_show inp).
    - destruct (menu_action_ inp (w_contexts w, debugger fe)) as [st1 d1].
      destruct (cache d1) as [c|]; [|done].
      rewrite call_stack_loop_none in Hrun' by done.
      assert (Hpair : (if in_begin_call_stack inp && full'
                       then (selected_stack_entry fe, false)
                       else (selected_stack_entry fe, false))
                      = (selected_stack_entry fe, false))
        by by destruct (_ && _).
      rewrite Hpair in Hrun'. clear Hpair.
      destruct (cache_windows QVC CG CL fuel full' inp
                  (selected_stack_entry fe) (RenderState c (w_queried w)))
        as [s|]; [|done].
      exists st1, (set_cache d1 (Some (rs_cache s))), (rs_queried s).
      destruct (in_begin_source inp && full').
      + exists [Editor_Render]. split; [by right|exact Hrun'].
      + exists []. split; [by left|]. by rewrite app_nil_r.
    - exists (w_contexts w), (debugger fe), (w_queried w), [].
      split; [by left|]. by rewrite app_nil_r. }
  destruct Hsel as (st1 & d1 & queried & drawn & Hdrawn & Hres).
  simpl in Hres.
  destruct (key_action_ inp _) as [st3 d3]. injection Hres as <- <-.
  simpl.
  destruct (cursor_countdown_fields
              (Frontend d1 (selected_stack_entry fe) (update_row fe)
                 (update_cursor fe) (resetOpenStates fe) false
                 (editor fe ++ drawn))) as (_ & H2 & H3 & H4 & H5).
  simpl in *. split; [done|]. split; [done|]. split; [done|].
  split; [done|]. exists drawn. split; [done|]. by rewrite H5, app_assoc.
Qed.

(** X17: the cursor follows a change of script two frames later. After
    [ChangeScript] has set the countdown, the first frame that returns
    without a new selection places nothing, the second places the error
    marker and the cursor on the row before [update_row], and the third
    places nothing again; apart from that the editor only sees at most one
    [Render] call per frame. Menus, keys and tables may be used meanwhile. *)
Theorem cursor_update_two_frames_after_ChangeScript
    (fuel : nat) (full1 full2 full3 : bool) (inp1 inp2 inp3 : frame_input)
    (w0 w1 w2 w3 w4 : frontend_world) (b1 b2 b3 : bool) :
  ChangeScript FetchSource w0 = Some w1 ->
  Render_ fuel full1 inp1 w1 = Some (b1, w2) ->
  Render_ fuel full2 inp2 w2 = Some (b2, w3) ->
  Render_ fuel full3 inp3 w3 = Some (b3, w4) ->
  in_backend inp1 <> FrameResult_Exit ->
  in_backend inp2 <> FrameResult_Exit ->
  in_backend inp3 <> FrameResult_Exit ->
  (forall n, in_stack_clicked inp1 n = false) ->
  (forall n, in_stack_clicked inp2 n = false) ->
  (forall n, in_stack_clicked inp3 n = false) ->
  exists d1 d2 d3,
    (d1 = [] \/ d1 = [Editor_Render]) /\
    (d2 = [] \/ d2 = [Editor_Render]) /\
    (d3 = [] \/ d3 = [Editor_Render]) /\
    editor (w_frontend w2) = editor (w_frontend w1) ++ d1 /\
    editor (w_frontend w3)
    = editor (w_frontend w2) ++ d2 ++
      cursor_update (update_row (w_frontend w1)) /\
    editor (w_frontend w4) = editor (w_frontend w3) ++ d3 /\
    update_cursor (w_frontend w4) = 0%Z.
Proof.
  intros Hcs H1 H2 H3 He1 He2 He3 Hn1 Hn2 Hn3.
  assert (Hcur : update_cursor (w_frontend w1) = 2%Z).
  { unfold ChangeScript in Hcs.
    destruct (cache _); [|done]. destruct (_ !! _); [|done].
    destruct (_ <? _)%Z; [done|]. destruct (_ !! _); [|done].
    by injection Hcs as <-. }
  destruct (Render_without_selection _ _ _ _ _ _ H1 He1 Hn1)
    as (_ & _ & Hr1 & Hc1 & d1 & Hd1 & Hed1).
  destruct (Render_without_selection _ _ _ _ _ _ H2 He2 Hn2)
    as (_ & _ & Hr2 & Hc2 & d2 & Hd2 & Hed2).
  destruct (Render_without_selection _ _ _ _ _ _ H3 He3 Hn3)
    as (_ & _ & Hr3 & Hc3 & d3 & Hd3 & Hed3).
  rewrite Hcur in Hc1, Hed1. simpl in Hc1, Hed1.
  rewrite Hc1 in Hc2, Hed2. simpl in Hc2, Hed2.
  rewrite Hc2 in Hc3, Hed3. simpl in Hc3, Hed3.
  rewrite app_nil_r in Hed1, Hed3.
  exists d1, d2, d3. rewrite Hr1 in Hed2. done.
Qed.


(** X18: selecting a call stack entry. In a full frame in which the Call
    Stack window is drawn and entry [n] is the last to report a click, with
    no menu item or key used, the entry selected before plays no part; the
    tables of that same frame are drawn for entry [n]; and if the frame
    returns, [n] is selected, [ChangeScript] has run on the cache the tables
    left, taking the row and the source from frame [n] of the context, and
    the cursor countdown stands at two. *)
Theorem Render_selects_clicked_entry (fuel : nat) (inp : frame_input)
    (w : frontend_world) (c : asIDBCache) (n : nat) :
  in_backend inp = FrameResult_Other ->
  in_show inp = true ->
  in_begin_call_stack inp = true ->
  no_menu_click inp ->
  no_key_pressed inp ->
  cache (debugger (w_frontend w)) = Some c ->
  n < length (call_stack c) ->
  in_stack_clicked inp n = true ->
  (forall m, n < m < length (call_stack c) -> in_stack_clicked inp m = false) ->
  let fe := w_frontend w in
  (forall before,
     Render_ fuel true inp
       (World (w_contexts w) (set_selected_stack_entry fe before)
              (w_queried w))
     = Render_ fuel true inp w) /\
  (forall b w',
     Render_ fuel true inp w = Some (b, w') ->
     let fe' := w_frontend w' in
     b = true /\
     selected_stack_entry fe' = Z.of_nat n /\
     update_cursor fe' = 2%Z /\
     resetOpenStates fe' = true /\
     exists s o func drawn,
       cache_windows QVC CG CL fuel true inp (Z.of_nat n)
                     (RenderState c (w_queried w)) = Some s /\
       cache (debugger fe') = Some (rs_cache s) /\
       w_queried w' = rs_queried s /\
       w_contexts w !! ctx (rs_cache s) = Some o /\
       callstack o !! n = Some func /\
       update_row fe' = frame_line func /\
       (drawn = [] \/ drawn = [Editor_Render]) /\
       editor fe'
       = editor fe ++ drawn ++
         [Editor_ClearCursors; Editor_ClearErrorMarkers;
          Editor_SetText (FetchSource func)]).
Proof.
  intros Hb Hshow Hcs Hmenu Hkeys Hc Hn Hclick Hlast fe. subst fe.
  assert (Hloop : forall before,
            call_stack_loop (in_stack_clicked inp) 0 (call_stack c) before
                            false = (Z.of_nat n, true)).
  { intros before.
    destruct (call_stack_loop_spec (in_stack_clicked inp) (call_stack c) 0
                before false) as [_ H].
    apply H; [lia|done|]. intros m Hm. apply Hlast. lia. }
  split.
  - intros before. unfold Render. rewrite Hb, Hshow, Hcs. simpl.
    rewrite !menu_action_none by done. rewrite Hc.
    by rewrite !Hloop.
  - intros b w' Hrun fe'. subst fe'. unfold Render in Hrun.
    rewrite Hb, Hshow, Hcs in Hrun. simpl in Hrun.
    rewrite menu_action_none in Hrun by done.
    rewrite Hc, Hloop in Hrun.
    destruct (cache_windows QVC CG CL fuel true inp (Z.of_nat n)
                (RenderState c (w_queried w))) as [s|] eqn:Hwin; [|done].
    unfold ChangeScript in Hrun. simpl in Hrun.
    destruct (w_contexts w !! ctx (rs_cache s)) as [o|] eqn:Ho; [|done].
    destruct (Z.of_nat n <? 0)%Z eqn:Hneg; [done|].
    rewrite Nat2Z.id in Hrun.
    destruct (callstack o !! n) as [func|] eqn:Hfunc; [|done].
    simpl in Hrun. rewrite key_action_none in Hrun by done.
    injection Hrun as <- <-. simpl.
    split; [done|]. split; [done|]. split; [done|]. split; [done|].
    exists s, o, func.
    exists (if in_begin_source inp then [Editor_Render] else []).
    split; [done|]. split; [done|]. split; [done|]. split; [done|].
    split; [done|]. split; [done|].
    split; [destruct (in_begin_source inp); [by right|by left]|].
    rewrite andb_true_r.
    destruct (in_begin_source inp); [by rewrite <- app_assoc|done].
Qed.

End FrameLoopFacts.

Section FrameLoopWitnesses.
Let QVC0 := fun (_ : asIDBVarAddr) (c : asIDBCache) => c.
Let CG0 := fun c : asIDBCache => c.
Let CL0 := fun (_ : asIDBLocalKey) (c : asIDBCache) => c.
Let source_of := fun f : as_frame => frame_section f.
Let act0 := fun dw : gmap Z asIScriptContext * asIDBDebugger => dw.

Lemma Render_partial_update_witness :
  Render QVC0 CG0 CL0 source_of act0 act0 act0 act0 1 false bare_frame
         (sample_world false) = None /\
  exists w',
    Render QVC0 CG0 CL0 source_of act0 act0 act0 act0 1 false bare_frame
           (sample_world true) = Some (true, w') /\
    debugger (w_frontend w') = debugger (w_frontend (sample_world true)) /\
    setupDock (w_frontend w') = false.
Proof.
  assert (Hne : in_backend bare_frame <> FrameResult_Exit) by discriminate.
  assert (Hmenu : no_menu_click bare_frame) by (by left).
  assert (Hkeys : no_key_pressed bare_frame) by done.
  split.
  - destruct (Render_partial_update QVC0 CG0 CL0 source_of act0 act0 act0
                act0 1 false bare_frame (sample_world false) Hne
                (or_introl eq_refl) Hmenu Hkeys) as [_ H].
    by apply H.
  - destruct (Render_partial_update QVC0 CG0 CL0 source_of act0 act0 act0
                act0 1 false bare_frame (sample_world true) Hne
                (or_introl eq_refl) Hmenu Hkeys) as [H _].
    eexists. split; [apply H; right; by eexists|]. done.
Defined.

Lemma cursor_update_two_frames_after_ChangeScript_witness :
  let frame w :=
    from_option snd w
      (Render QVC0 CG0 CL0 source_of act0 act0 act0 act0 1 true bare_frame w)
  in
  let w1 := from_option id (sample_world true)
              (ChangeScript source_of (sample_world true)) in
  editor (w_frontend w1)
  = [Editor_ClearCursors; Editor_ClearErrorMarkers; Editor_SetText "main.as"]
  /\
  editor (w_frontend (frame (frame w1)))
  = editor (w_frontend w1) ++ cursor_update 10 /\
  update_cursor (w_frontend (frame (frame (frame w1)))) = 0%Z.
Proof.
  intros frame w1.
  assert (H0 : ChangeScript source_of (sample_world true) = Some w1)
    by (vm_compute; reflexivity).
  assert (Hf : forall w w',
            Render QVC0 CG0 CL0 source_of act0 act0 act0 act0 1 true
                   bare_frame w = Some (true, w') -> frame w = w').
  { intros w w' H. unfold frame. by rewrite H. }
  assert (H1 : Render QVC0 CG0 CL0 source_of act0 act0 act0 act0 1 true
                 bare_frame w1 = Some (true, frame w1))
    by (vm_compute; reflexivity).
  assert (H2 : Render QVC0 CG0 CL0 source_of act0 act0 act0 act0 1 true
                 bare_frame (frame w1) = Some (true, frame (frame w1)))
    by (vm_compute; reflexivity).
  assert (H3 : Render QVC0 CG0 CL0 source_of act0 act0 act0 act0 1 true
                 bare_frame (frame (frame w1))
               = Some (true, frame (frame (frame w1))))
    by (vm_compute; reflexivity).
  assert (Hne : in_backend bare_frame <> FrameResult_Exit) by discriminate.
  destruct (cursor_update_two_frames_after_ChangeScript QVC0 CG0 CL0
              source_of act0 act0 act0 act0 1 true true true
              bare_frame bare_frame bare_frame
              (sample_world true) w1 (frame w1) (frame (frame w1))
              (frame (frame (frame w1))) true true true
              H0 H1 H2 H3 Hne Hne Hne
              (fun _ => eq_refl) (fun _ => eq_refl) (fun _ => eq_refl))
    as (d1 & d2 & d3 & _ & _ & _ & _ & _ & _ & Hcur).
  split; [reflexivity|]. split; [reflexivity|exact Hcur].
Defined.

Lemma Render_selects_clicked_entry_witness :
  exists w',
    Render QVC0 CG0 CL0 source_of act0 act0 act0 act0 1 true
           select_second_frame (sample_world true) = Some (true, w') /\
    selected_stack_entry (w_frontend w') = 1%Z /\
    update_row (w_frontend w') = 3%Z /\
    update_cursor (w_frontend w') = 2%Z.
Proof.
  destruct (Render QVC0 CG0 CL0 source_of act0 act0 act0 act0 1 true
              select_second_frame (sample_world true))
    as [[b w']|] eqn:Hrun; [|vm_compute in Hrun; discriminate].
  assert (Hmenu : no_menu_click select_second_frame) by (by left).
  assert (Hkeys : no_key_pressed select_second_frame) by done.
  assert (Hlast : forall m, 1 < m < 2 ->
                            in_stack_clicked select_second_frame m = false)
    by (intros m Hm; lia).
  destruct (Render_selects_clicked_entry QVC0 CG0 CL0 source_of act0 act0
              act0 act0 1 select_second_frame (sample_world true) _ 1
              eq_refl eq_refl eq_refl Hmenu Hkeys eq_refl
              (le_n 2) eq_refl Hlast) as [_ H].
  destruct (H b w' Hrun) as (-> & Hsel & Hcur & _ & _).
  exists w'. split; [done|]. split; [exact Hsel|]. split; [|exact Hcur].
  vm_compute in Hrun. by injection Hrun as <-.
Defined.
End FrameLoopWitnesses.
